(** * PlaywrightChatRunner: the action-plan DSL and its runner

    A shallow embedding of [src/actionDsl.ts] (the plan validator) and
    [src/playwrightRunner.ts] (the plan runner), with the properties the
    specification states about them.

    Conventions.
    - A JavaScript string is a Rocq [string]; each character stands for one
      UTF-16 code unit (below 256).
    - An untrusted parsed JSON value is a [JsValue]; an object is its
      property list, read by key.
    - The browser is an external collaborator.  Every call the runner makes
      on it is recorded in a trace, and its reply (a returned value or a
      thrown value) is given by an arbitrary function of the calls made so
      far and the call at hand.
    - [async]/[await] in the runner is strictly sequential, so the runner is
      a computation in a state-and-exception monad. *)

From Stdlib Require Import Ascii.
From stdpp Require Import base list strings pretty.

Set Warnings "-register-all,-clear-no-such-hyp".

Open Scope string_scope.
Open Scope list_scope.

(** ** Strings *)

(** The double-quote character, as it occurs inside the messages. *)
Definition dquote : string := String "034"%char "".

(** [q s] is [s] between double quotes. *)
Definition q (s : string) : string := dquote +:+ s +:+ dquote.

(** [String.prototype.includes]: [sub] occurs somewhere in [s]. *)
Fixpoint includes (s sub : string) : bool :=
  String.prefix sub s ||
  match s with
  | EmptyString => false
  | String _ rest => includes rest sub
  end.

(** A decimal digit. *)
Definition is_digit (c : ascii) : bool :=
  bool_decide (c ∈ ["0"; "1"; "2"; "3"; "4"; "5"; "6"; "7"; "8"; "9"]%char).

(** ** Untrusted values *)

Inductive JsValue : Type :=
| JUndefined
| JNull
| JBoolean (b : bool)
| JNumber (n : Z)
| JString (s : string)
| JArray (elems : list JsValue)
| JObject (props : list (string * JsValue)).

(** [typeof v === 'object'].  Note that [typeof null] and [typeof []] are
    both ['object']. *)
Definition typeof_object (v : JsValue) : bool :=
  match v with
  | JNull | JArray _ | JObject _ => true
  | _ => false
  end.

Definition is_null (v : JsValue) : bool :=
  match v with JNull => true | _ => false end.

Fixpoint assoc (k : string) (props : list (string * JsValue)) : JsValue :=
  match props with
  | [] => JUndefined
  | (k', v) :: rest => if decide (k = k') then v else assoc k rest
  end.

(** [v.k] for a [v] that passed the [typeof v === 'object' && v !== null]
    test: a property of an object, [undefined] on an array (the keys read
    here are never array indices nor [length]). *)
Definition get (k : string) (v : JsValue) : JsValue :=
  match v with
  | JObject props => assoc k props
  | _ => JUndefined
  end.

(** [typeof v === 'string']. *)
Definition typeof_string (v : JsValue) : bool :=
  match v with JString _ => true | _ => false end.

(** [typeof v !== 'string' || !v]: [v] is not a non-empty string. *)
Definition not_nonempty_string (v : JsValue) : bool :=
  match v with
  | JString s => bool_decide (s = "")
  | _ => true
  end.

(** ** actionDsl.ts *)

Definition AVAILABLE_TOOLS : list string :=
  [ "goto"; "clickText"; "type"; "waitForText"; "extractText";
    "snapshotText"; "screenshot"; "closeBrowser" ].

Record ActionStep : Type := {
  action : string;
  url : option string;
  text : option string;
  selector : option string;
  value : option string;
  name : option string;
}.

Record ActionPlan : Type := { steps : list ActionStep }.

(** [enabledTools.includes(action)]. *)
Definition tool_enabled (enabledTools : list string) (a : string) : bool :=
  bool_decide (a ∈ enabledTools).

(** The common prefix of every per-step message: [`Step ${index}: `]. *)
Definition step_prefix (index : nat) : string :=
  "Step " +:+ pretty index +:+ ": ".

(** The [switch (action)] of [validateStep]: the errors pushed for a step
    object [s] whose action is the string [a]. *)
Definition validateFields (s : JsValue) (index : nat) (a : string)
  : list string :=
  if decide (a = "goto") then
    if not_nonempty_string (get "url" s)
    then [step_prefix index +:+ q "goto" +:+ " requires a non-empty "
            +:+ q "url" +:+ " string"]
    else []
  else if decide (a = "clickText") then
    if not_nonempty_string (get "text" s)
    then [step_prefix index +:+ q "clickText" +:+ " requires a non-empty "
            +:+ q "text" +:+ " string"]
    else []
  else if decide (a = "type") then
    (if not_nonempty_string (get "selector" s)
     then [step_prefix index +:+ q "type" +:+ " requires a non-empty "
             +:+ q "selector" +:+ " string"]
     else [])
    ++
    (if negb (typeof_string (get "value" s))
     then [step_prefix index +:+ q "type" +:+ " requires a "
             +:+ q "value" +:+ " string"]
     else [])
  else if decide (a = "waitForText") then
    if not_nonempty_string (get "text" s)
    then [step_prefix index +:+ q "waitForText" +:+ " requires a non-empty "
            +:+ q "text" +:+ " string"]
    else []
  else if decide (a = "extractText") then
    if not_nonempty_string (get "selector" s)
    then [step_prefix index +:+ q "extractText" +:+ " requires a non-empty "
            +:+ q "selector" +:+ " string"]
    else []
  else if decide (a = "snapshotText") then []
  else if decide (a = "closeBrowser") then []
  else if decide (a = "screenshot") then
    if not_nonempty_string (get "name" s)
    then [step_prefix index +:+ q "screenshot" +:+ " requires a non-empty "
            +:+ q "name" +:+ " string"]
    else []
  else [step_prefix index +:+ "unknown action " +:+ q a].

Definition validateStep (step : JsValue) (index : nat)
    (enabledTools : list string) : list string :=
  if negb (typeof_object step) || is_null step then
    [step_prefix index +:+ "must be an object"]
  else
    match get "action" step with
    | JString a =>
        if negb (tool_enabled enabledTools a) then
          [step_prefix index +:+ "action " +:+ q a
             +:+ " is not in the enabled tools list"]
        else validateFields step index a
    | _ => [step_prefix index +:+ q "action" +:+ " must be a string"]
    end.

(** The [for (let i = 0; i < obj.steps.length; i++)] loop, from index [i]
    on: the errors of every remaining element, in order. *)
Fixpoint validateSteps (elems : list JsValue) (i : nat)
    (enabledTools : list string) : list string :=
  match elems with
  | [] => []
  | e :: rest =>
      validateStep e i enabledTools ++ validateSteps rest (S i) enabledTools
  end.

(** A string-typed field of a step, as the runner reads it. *)
Definition string_field (k : string) (v : JsValue) : option string :=
  match get k v with
  | JString s => Some s
  | _ => None
  end.

(** [obj.steps as ActionStep[]]: the type assertion reuses the validated
    value as it is.  The view below reads the fields [ActionStep] declares;
    a field holding anything but a string is outside the declared type and
    reads as absent (validation has checked that every field the runner
    reads for the step's action is a string). *)
Definition asActionStep (v : JsValue) : ActionStep :=
  {| action := default "" (string_field "action" v);
     url := string_field "url" v;
     text := string_field "text" v;
     selector := string_field "selector" v;
     value := string_field "value" v;
     name := string_field "name" v |}.

Record ValidationResult : Type := {
  valid : bool;
  errors : list string;
  plan : option ActionPlan;
}.

Definition validateActionPlan (raw : JsValue) (enabledTools : list string)
  : ValidationResult :=
  if negb (typeof_object raw) || is_null raw then
    {| valid := false; errors := ["Plan must be a JSON object"];
       plan := None |}
  else
    match get "steps" raw with
    | JArray elems =>
        let errs := validateSteps elems 0 enabledTools in
        if bool_decide (0 < length errs) then
          {| valid := false; errors := errs; plan := None |}
        else
          {| valid := true; errors := [];
             plan := Some {| steps := map asActionStep elems |} |}
    | _ =>
        {| valid := false; errors := [q "steps" +:+ " must be an array"];
           plan := None |}
    end.

(** ** playwrightRunner.ts *)

Module ExecutionResult.
Record t : Type := mk {
  action : string;
  success : bool;
  data : option string;
  error : option string;
}.
End ExecutionResult.
Abbreviation ExecutionResult := ExecutionResult.t.

(** *** Thrown values and completions *)

(** A thrown value, as far as the runner looks at it: an [Error] instance
    with its [message], or anything else with its [String(err)]. *)
Inductive Thrown : Type :=
| ErrorInstance (message : string)
| OtherValue (shown : string).

(** [err instanceof Error ? err.message : String(err)]. *)
Definition err_text (e : Thrown) : string :=
  match e with
  | ErrorInstance m => m
  | OtherValue s => s
  end.

(** How an evaluation ends: with a value, or by throwing. *)
Inductive Completion (A : Type) : Type :=
| Normal (a : A)
| Throw (e : Thrown).
Arguments Normal {A} a.
Arguments Throw {A} e.

(** *** The browser *)

(** The calls the runner makes on Playwright.  An argument written
    [step.f!] in the source is passed as it is, absent or not. *)
Inductive BrowserCall : Type :=
| Launch                                       (* chromium.launch *)
| NewContext                                   (* browser.newContext *)
| NewPage                                      (* context.newPage *)
| PageGoto (url : string)                      (* page.goto *)
| ClickText (text : option string)             (* getByText.first.click *)
| Fill (selector value : option string)        (* locator.fill *)
| WaitForText (text : option string)           (* getByText.first.waitFor *)
| FirstInnerText (selector : option string)    (* locator.first.innerText *)
| BodyInnerText                                (* locator('body').innerText *)
| PageScreenshot (path : string)               (* page.screenshot *)
| BrowserClose.                                (* browser.close *)

(** The browser's reply to a call, given the calls made before it. *)
Definition Browser : Type := list BrowserCall -> BrowserCall -> Completion string.

(** *** The host platform *)

(** What the runner takes from Node: [os.tmpdir()], [path.join],
    [path.basename] (and what it throws for an argument that is not a
    string), and [new URL(s).protocol] (or what [new URL(s)] throws). *)
Record Platform : Type := {
  tmpdir : string;
  path_join : string -> string -> string;
  path_basename : string -> string;
  path_basename_undefined : Thrown;
  URL_protocol : string -> Completion string;
}.

(** *** Runner state and monad *)

(** The variables of [executePlan] and the calls made so far. *)
Record RunState : Type := {
  trace : list BrowserCall;
  results : list ExecutionResult;
  browser_set : bool;           (* [browser] is no longer [null] *)
}.

Definition initial : RunState :=
  {| trace := []; results := []; browser_set := false |}.

Definition M (A : Type) : Type := RunState -> Completion A * RunState.

Definition ret {A} (a : A) : M A := fun st => (Normal a, st).

Definition bind {A B} (m : M A) (k : A -> M B) : M B :=
  fun st =>
    match m st with
    | (Normal a, st') => k a st'
    | (Throw e, st') => (Throw e, st')
    end.

#[global] Instance M_ret : MRet M := @ret.
#[global] Instance M_bind : MBind M := fun A B k m => bind m k.

(** [try { m } catch (err) { h err }]. *)
Definition try_catch {A} (m : M A) (h : Thrown -> M A) : M A :=
  fun st =>
    match m st with
    | (Normal a, st') => (Normal a, st')
    | (Throw e, st') => h e st'
    end.

(** [try { m } finally { f }]: [f] runs however [m] ends; what [f] throws
    replaces the completion of [m]. *)
Definition try_finally {A} (m : M A) (f : M unit) : M A :=
  fun st =>
    match m st with
    | (c, st') =>
        match f st' with
        | (Normal _, st'') => (c, st'')
        | (Throw e, st'') => (Throw e, st'')
        end
    end.

(** [results.push(r)]. *)
Definition push (r : ExecutionResult) : M unit :=
  fun st =>
    (Normal tt,
     {| trace := trace st; results := results st ++ [r];
        browser_set := browser_set st |}).

(** The assignment to [browser]. *)
Definition set_browser : M unit :=
  fun st =>
    (Normal tt,
     {| trace := trace st; results := results st; browser_set := true |}).

Definition read {A} (f : RunState -> A) : M A := fun st => (Normal (f st), st).

(** [await] of a browser call: it is recorded, and it returns or throws
    as the browser decides. *)
Definition call (browser : Browser) (c : BrowserCall) : M string :=
  fun st =>
    (browser (trace st) c,
     {| trace := trace st ++ [c]; results := results st;
        browser_set := browser_set st |}).

(** Evaluation of a platform function that may throw. *)
Definition lift {A} (c : Completion A) : M A := fun st => (c, st).

(** *** Screenshot names *)

(** The complement of the class in [/[^a-zA-Z0-9_.-]/]. *)
Definition safe_char (c : ascii) : bool :=
  let n := nat_of_ascii c in
  ((97 <=? n)%nat && (n <=? 122)%nat) || ((65 <=? n)%nat && (n <=? 90)%nat) ||
  ((48 <=? n)%nat && (n <=? 57)%nat) ||
  bool_decide (c = "_"%char) || bool_decide (c = "."%char) ||
  bool_decide (c = "-"%char).

(** [s.replace(/[^a-zA-Z0-9_.-]/g, '_')]. *)
Fixpoint replace_unsafe (s : string) : string :=
  match s with
  | EmptyString => EmptyString
  | String c rest =>
      String (if safe_char c then c else "_"%char) (replace_unsafe rest)
  end.

Fixpoint all_chars (P : ascii -> bool) (s : string) : bool :=
  match s with
  | EmptyString => true
  | String c rest => P c && all_chars P rest
  end.

(** *** executeStep and executePlan *)

(** [!s] for an optional string: absent or empty. *)
Definition falsy (s : option string) : bool :=
  match s with
  | None => true
  | Some u => bool_decide (u = "")
  end.

Definition succeeded (step : ActionStep) (d : option string)
  : ExecutionResult :=
  {| ExecutionResult.action := action step;
     ExecutionResult.success := true;
     ExecutionResult.data := d;
     ExecutionResult.error := None |}.

Definition failed (step : ActionStep) (msg : string) : ExecutionResult :=
  {| ExecutionResult.action := action step;
     ExecutionResult.success := false;
     ExecutionResult.data := None;
     ExecutionResult.error := Some msg |}.

Definition url_required : string := q "url" +:+ " is required for goto".

Definition scheme_rejected (protocol : string) : string :=
  "Only http and https URLs are allowed, got " +:+ q protocol.

Definition invalid_url (u msg : string) : string :=
  "Invalid URL: " +:+ q u +:+ " - " +:+ msg.

Definition unknown_action (a : string) : string := "Unknown action: " +:+ a.

Section Runner.
Context (P : Platform) (browser : Browser).

(** The inner [try] of the [goto] case: [Some r] when it returns [r]
    from [executeStep], [None] when control falls through to
    [page.goto]. *)
Definition checkUrl (step : ActionStep) (u : string)
  : M (option ExecutionResult) :=
  try_catch
    (protocol ← lift (URL_protocol P u);
     if bool_decide (protocol ≠ "http:") && bool_decide (protocol ≠ "https:")
     then mret (Some (failed step (scheme_rejected protocol)))
     else mret None)
    (fun e => mret (Some (failed step (invalid_url u (err_text e))))).

(** The body of the [switch (step.action)]. *)
Definition dispatch (step : ActionStep) : M ExecutionResult :=
  if decide (action step = "goto") then
    if falsy (url step) then mret (failed step url_required)
    else
      let u := default "" (url step) in
      blocked ← checkUrl step u;
      match blocked with
      | Some r => mret r
      | None => call browser (PageGoto u);; mret (succeeded step None)
      end
  else if decide (action step = "clickText") then
    call browser (ClickText (text step));; mret (succeeded step None)
  else if decide (action step = "type") then
    call browser (Fill (selector step) (value step));;
    mret (succeeded step None)
  else if decide (action step = "waitForText") then
    call browser (WaitForText (text step));; mret (succeeded step None)
  else if decide (action step = "extractText") then
    t ← call browser (FirstInnerText (selector step));
    mret (succeeded step (Some t))
  else if decide (action step = "snapshotText") then
    bodyText ← call browser BodyInnerText;
    mret (succeeded step (Some bodyText))
  else if decide (action step = "screenshot") then
    base ← match name step with
           | Some n => mret (path_basename P n)
           | None => lift (Throw (path_basename_undefined P))
           end;
    let safeName := replace_unsafe base in
    let screenshotPath := path_join P (tmpdir P) (safeName +:+ ".png") in
    call browser (PageScreenshot screenshotPath);;
    mret (succeeded step (Some screenshotPath))
  else if decide (action step = "closeBrowser") then
    mret (succeeded step None)
  else mret (failed step (unknown_action (action step))).

Definition executeStep (step : ActionStep) : M ExecutionResult :=
  try_catch (dispatch step) (fun e => mret (failed step (err_text e))).

(** The [for (const step of plan.steps)] loop with its [break]. *)
Fixpoint runSteps (l : list ActionStep) : M unit :=
  match l with
  | [] => mret tt
  | step :: rest =>
      if decide (action step = "closeBrowser") then
        r ← executeStep step; push r
      else
        r ← executeStep step; push r;; runSteps rest
  end.

Definition browser_init (e : Thrown) : ExecutionResult :=
  {| ExecutionResult.action := "browser-init";
     ExecutionResult.success := false;
     ExecutionResult.data := None;
     ExecutionResult.error := Some (err_text e) |}.

(** The [try] block of [executePlan]. *)
Definition openAndRun (plan : ActionPlan) : M unit :=
  call browser Launch;; set_browser;;
  call browser NewContext;;
  call browser NewPage;;
  runSteps (steps plan).

(** The [finally] block of [executePlan]. *)
Definition teardown : M unit :=
  b ← read browser_set;
  if b : bool then
    try_catch (call browser BrowserClose;; mret tt) (fun _ => mret tt)
  else mret tt.

Definition executePlan (plan : ActionPlan) : M (list ExecutionResult) :=
  try_finally
    (try_catch (openAndRun plan) (fun e => push (browser_init e)))
    teardown;;
  read results.

End Runner.

(** A browser in which every call returns (with the given text). *)
Definition obliging (txt : string) : Browser := fun _ _ => Normal txt.

(** A browser that fails to launch. *)
Definition unlaunchable (msg : string) : Browser :=
  fun _ c =>
    match c with
    | Launch => Throw (ErrorInstance msg)
    | _ => Normal ""
    end.

(** ** The required-field table of the specification *)

(** The per-kind required fields as the specification lists them (url for
    goto; text for clickText and waitForText; selector and value for type;
    selector for extractText; name for screenshot; none for snapshotText
    and closeBrowser).  The flag says whether the field must also be
    non-empty. *)
Definition required_fields (a : string) : list (string * bool) :=
  if decide (a = "goto") then [("url", true)]
  else if decide (a = "clickText") then [("text", true)]
  else if decide (a = "type") then [("selector", true); ("value", false)]
  else if decide (a = "waitForText") then [("text", true)]
  else if decide (a = "extractText") then [("selector", true)]
  else if decide (a = "screenshot") then [("name", true)]
  else [].

(** The step has the field, as a string (non-empty where required). *)
Definition field_present (s : JsValue) (f : string * bool) : bool :=
  if f.2 then negb (not_nonempty_string (get f.1 s))
  else typeof_string (get f.1 s).

(** The message for a required field [f] that step [index], of kind [a],
    lacks. *)
Definition field_error (index : nat) (a : string) (f : string * bool)
  : string :=
  step_prefix index +:+ q a +:+ " requires a "
    +:+ (if f.2 then "non-empty " else "") +:+ q f.1 +:+ " string".

Definition disabled_message (index : nat) (a : string) : string :=
  step_prefix index +:+ "action " +:+ q a
    +:+ " is not in the enabled tools list".

Definition unknown_message (index : nat) (a : string) : string :=
  step_prefix index +:+ "unknown action " +:+ q a.

(** ** Sample inputs *)

Definition obj_goto_no_url : JsValue := JObject [("action", JString "goto")].

Definition obj_type_no_value : JsValue :=
  JObject [("action", JString "type"); ("selector", JString "#x")].

Definition raw_two_defects : JsValue :=
  JObject [("steps", JArray [obj_goto_no_url; obj_type_no_value])].

Definition obj_unknown : JsValue :=
  JObject [("action", JString "deleteEverything")].

Definition raw_screenshot (n : string) : JsValue :=
  JObject [("steps", JArray [JObject [("action", JString "screenshot");
                                      ("name", JString n)]])].

(** The valid multi-step plan of the test suite. *)
Definition raw_valid_plan : JsValue :=
  JObject [("steps", JArray
    [ JObject [("action", JString "goto");
               ("url", JString "https://example.com")];
      JObject [("action", JString "clickText"); ("text", JString "About")];
      JObject [("action", JString "screenshot");
               ("name", JString "about-page")];
      JObject [("action", JString "closeBrowser")] ])].

Definition step_goto (u : string) : ActionStep :=
  {| action := "goto"; url := Some u; text := None; selector := None;
     value := None; name := None |}.

Definition step_closeBrowser : ActionStep :=
  {| action := "closeBrowser"; url := None; text := None; selector := None;
     value := None; name := None |}.

Definition step_screenshot (n : string) : ActionStep :=
  {| action := "screenshot"; url := None; text := None; selector := None;
     value := None; name := Some n |}.

(** A browser that throws when closed. *)
Definition close_fails (msg : string) : Browser :=
  fun _ c =>
    match c with
    | BrowserClose => Throw (ErrorInstance msg)
    | _ => Normal ""
    end.

(** ** A POSIX host for the examples *)

(** Node's POSIX [path.basename(p)] (one argument): scanning from the end,
    trailing slashes are skipped, then characters are taken up to the next
    slash.  [rev_chars] is what is left to scan, [matchedSlash] says that
    only slashes were seen so far, [acc] is the component collected. *)
Fixpoint basename_scan (rev_chars : list ascii) (matchedSlash : bool)
    (acc : list ascii) : list ascii :=
  match rev_chars with
  | [] => acc
  | c :: rest =>
      if bool_decide (c = "/"%char) then
        if matchedSlash then basename_scan rest true acc else acc
      else basename_scan rest false (c :: acc)
  end.

Definition posix_basename (p : string) : string :=
  String.string_of_list_ascii
    (basename_scan (rev (String.list_ascii_of_string p)) true []).

Definition is_alpha (c : ascii) : bool :=
  let n := nat_of_ascii c in
  ((97 <=? n)%nat && (n <=? 122)%nat) || ((65 <=? n)%nat && (n <=? 90)%nat).

Definition to_lower (c : ascii) : ascii :=
  let n := nat_of_ascii c in
  if ((65 <=? n)%nat && (n <=? 90)%nat) then ascii_of_nat (n + 32) else c.

(** The rest of a scheme, up to its colon (lower-cased, colon included). *)
Fixpoint scheme_rest (s : string) : option string :=
  match s with
  | EmptyString => None
  | String c rest =>
      if bool_decide (c = ":"%char) then Some ":"
      else if is_alpha c || is_digit c || bool_decide (c = "+"%char)
              || bool_decide (c = "-"%char) || bool_decide (c = "."%char)
      then String (to_lower c) <$> scheme_rest rest
      else None
  end.

(** A URL parser for the examples: it reads the scheme as the URL standard
    does (a letter, then letters, digits, [+], [-] and [.], up to a colon),
    throws [TypeError: Invalid URL] when there is none, and accepts
    whatever follows the colon. *)
Definition scheme_only_URL (s : string) : Completion string :=
  match s with
  | EmptyString => Throw (ErrorInstance "Invalid URL")
  | String c rest =>
      if is_alpha c then
        match scheme_rest rest with
        | Some tail => Normal (String (to_lower c) tail)
        | None => Throw (ErrorInstance "Invalid URL")
        end
      else Throw (ErrorInstance "Invalid URL")
  end.

(** A POSIX host: [basename] as above; the other functions are given. *)
Definition posix (tmp : string) (join : string -> string -> string)
    (urlp : string -> Completion string) : Platform :=
  {| tmpdir := tmp;
     path_join := join;
     path_basename := posix_basename;
     path_basename_undefined :=
       ErrorInstance ("The " +:+ q "path" +:+
                      " argument must be of type string. Received undefined");
     URL_protocol := urlp |}.

(** The host of the examples: temporary directory [/tmp], and a join that
    puts one slash between a directory and a file name. *)
Definition linux : Platform :=
  posix "/tmp" (fun d f => d +:+ "/" +:+ f) scheme_only_URL.

(** ** Sanitising as the specification words it *)

(** Stripping every character outside [[A-Za-z0-9_.-]]. *)
Fixpoint strip_unsafe (s : string) : string :=
  match s with
  | EmptyString => EmptyString
  | String c rest =>
      if safe_char c then String c (strip_unsafe rest) else strip_unsafe rest
  end.

(** ** Which steps are attempted *)

(** The steps up to and including the first [closeBrowser]. *)
Fixpoint attempted (l : list ActionStep) : list ActionStep :=
  match l with
  | [] => []
  | step :: rest =>
      if decide (action step = "closeBrowser") then [step]
      else step :: attempted rest
  end.

(** The runner state after [calls] more browser calls. *)
Definition add_calls (calls : list BrowserCall) (st : RunState) : RunState :=
  {| trace := trace st ++ calls; results := results st;
     browser_set := browser_set st |}.

(** The runner state after [rs] more results. *)
Definition add_results (rs : list ExecutionResult) (st : RunState) : RunState :=
  {| trace := trace st; results := results st ++ rs;
     browser_set := browser_set st |}.

(** The browser call that belongs to an action kind. *)
Definition call_for (a : string) (c : BrowserCall) : Prop :=
  match c with
  | PageGoto _ => a = "goto"
  | ClickText _ => a = "clickText"
  | Fill _ _ => a = "type"
  | WaitForText _ => a = "waitForText"
  | FirstInnerText _ => a = "extractText"
  | BodyInnerText => a = "snapshotText"
  | PageScreenshot _ => a = "screenshot"
  | Launch | NewContext | NewPage | BrowserClose => False
  end.

(** ** Predicates on runs *)

(** [attempts st l rs st']: starting in state [st], [executeStep] is run on
    each step of [l] in turn and its result pushed, giving the results [rs]
    and the state [st']. *)
Inductive attempts (P : Platform) (browser : Browser)
  : RunState → list ActionStep → list ExecutionResult → RunState → Prop :=
| attempts_nil st : attempts P browser st [] [] st
| attempts_cons st step r st1 l rs st' :
    executeStep P browser step st = (Normal r, st1) →
    attempts P browser (add_results [r] st1) l rs st' →
    attempts P browser st (step :: l) (r :: rs) st'.

(** The state in which the first step runs. *)
Definition session_open : RunState :=
  {| trace := [Launch; NewContext; NewPage]; results := [];
     browser_set := true |}.

(** Session initialisation succeeds: the three opening calls return. *)
Definition init_succeeds (browser : Browser) : Prop :=
  (∃ b, browser [] Launch = Normal b) ∧
  (∃ c, browser [Launch] NewContext = Normal c) ∧
  (∃ p, browser [Launch; NewContext] NewPage = Normal p).

(** Session initialisation throws [e]: at launch, at context creation or
    at page creation. *)
Definition init_throws (browser : Browser) (e : Thrown) : Prop :=
  browser [] Launch = Throw e ∨
  ((∃ b, browser [] Launch = Normal b) ∧
   browser [Launch] NewContext = Throw e) ∨
  ((∃ b, browser [] Launch = Normal b) ∧
   (∃ c, browser [Launch] NewContext = Normal c) ∧
   browser [Launch; NewContext] NewPage = Throw e).

(** A call that opens or closes the session, as opposed to a step's. *)
Definition session_call (c : BrowserCall) : Prop :=
  c = Launch ∨ c = NewContext ∨ c = NewPage ∨ c = BrowserClose.

(** [Some u] with [u] not empty. *)
Definition nonempty (o : option string) : Prop := ∃ u, o = Some u ∧ u ≠ "".

(** What validation establishes of a step, as the runner sees it: its
    action is one of the eight kinds, and the fields its kind requires are
    there. *)
Definition well_formed (s : ActionStep) : Prop :=
  action s ∈ AVAILABLE_TOOLS ∧
  (action s = "goto" → nonempty (url s)) ∧
  (action s = "clickText" → nonempty (text s)) ∧
  (action s = "type" → nonempty (selector s) ∧ is_Some (value s)) ∧
  (action s = "waitForText" → nonempty (text s)) ∧
  (action s = "extractText" → nonempty (selector s)) ∧
  (action s = "screenshot" → nonempty (name s)).

(** The step takes one of the two defensive branches of [executeStep]:
    the guard of [goto] on a missing url, or the [default] of the
    switch. *)
Definition takes_defensive_branch (s : ActionStep) : Prop :=
  (action s = "goto" ∧ falsy (url s) = true) ∨ action s ∉ AVAILABLE_TOOLS.

(** The browser throws nothing that reads like the runner's own
    defensive errors. *)
Definition browser_errors_foreign (browser : Browser) : Prop :=
  ∀ h c e, browser h c = Throw e →
    err_text e ≠ url_required ∧
    String.prefix "Unknown action:" (err_text e) = false.


(** ** chatProvider.ts *)

(** The line feed, as it occurs inside the messages. *)
Definition nl : string := String "010"%char "".

(** [l.join(sep)] for an array of strings. *)
Fixpoint join (sep : string) (l : list string) : string :=
  match l with
  | [] => ""
  | x :: rest =>
      match rest with
      | [] => x
      | _ => x +:+ sep +:+ join sep rest
      end
  end.

(** White space and line terminators of [String.prototype.trim], among
    the code units below 256. *)
Definition is_js_space (c : ascii) : bool :=
  let n := nat_of_ascii c in
  ((9 <=? n)%nat && (n <=? 13)%nat) || (n =? 32)%nat || (n =? 160)%nat.

Fixpoint trimStart (s : string) : string :=
  match s with
  | EmptyString => EmptyString
  | String c rest => if is_js_space c then trimStart rest else s
  end.

Definition trimEnd (s : string) : string :=
  String.rev (trimStart (String.rev s)).

(** [s.trim()]. *)
Definition trim (s : string) : string := trimEnd (trimStart s).

(** [k in v], for a [v] that is an object: an own property (the keys asked
    for here are not properties of [Object.prototype], nor of arrays). *)
Definition has_key (k : string) (v : JsValue) : bool :=
  match v with
  | JObject props => bool_decide (k ∈ props.*1)
  | _ => false
  end.

Inductive Role : Type := RoleUser | RoleLlm | RoleResult.

Module ChatEntry.
Record t : Type := mk {
  role : Role;
  text : JsValue;
  result : option ExecutionResult;
}.
End ChatEntry.
Abbreviation ChatEntry := ChatEntry.t.

(** The messages posted to the webview, by their [type]. *)
Inductive WebviewMessage : Type :=
| userMessage (text : string)
| llmMessage (text : JsValue)
| errorMessage (text : string)
| executionResult (r : ExecutionResult)
| loadedFile (text : string).

(** The messages received from the webview, by their [type], with the
    payload at the type the handler asserts. *)
Inductive ViewRequest : Type :=
| submit (text : string)
| loadFile
| exportResults
| updateTools (enabledTools : list string)
| otherRequest (type : string).

(** The selectors passed to [vscode.lm.selectChatModels]. *)
Inductive Selector : Type :=
| CopilotFamily (family : string)     (* { vendor: 'copilot', family } *)
| CopilotVendor                       (* { vendor: 'copilot' } *)
| AnyModel.                           (* no selector *)

(** What the provider does to its host, in order. *)
Inductive HostEvent : Type :=
| Posted (m : WebviewMessage)                      (* webview.postMessage *)
| ModelsSelected (s : Selector)                    (* lm.selectChatModels *)
| RequestSent (model content : string)             (* model.sendRequest *)
| PlanExecuted (plan : ActionPlan) (calls : list BrowserCall)
                                                   (* runner.executePlan *)
| OpenDialogShown                                  (* window.showOpenDialog *)
| FileRead (path : string)                         (* fs.readFileSync *)
| SaveDialogShown                                  (* window.showSaveDialog *)
| FileWritten (path content : string)              (* fs.writeFileSync *)
| InformationShown (msg : string)          (* window.showInformationMessage *)
| ErrorShown (msg : string).                     (* window.showErrorMessage *)

(** The host of the provider: VS Code, Node and the language model.  A
    reply may depend on everything the provider did before. *)
Record Host : Type := {
  platform : Platform;
  lm_available : bool;                             (* [vscode.lm] is there *)
  selectChatModels :
    list HostEvent -> Selector -> Completion (option (list string));
  sendRequest :                     (* the chunks of [request.text] *)
    list HostEvent -> string -> string -> Completion (list string);
  JSON_parse : string -> Completion JsValue;
  JSON_stringify : ExecutionResult -> string;
  JSON_stringify_indented : ExecutionResult -> string;
  browser_for : list HostEvent -> Browser;         (* a fresh chromium *)
  inherited_text : string -> option string;
    (* how [join] renders [descriptions[t]] when [t] names a property that
       the object literal inherits, if it names one *)
  template_text : JsValue -> Completion string;
    (* what a template literal makes of a value that is not a string: its
       text, or what the conversion throws (an object whose [toString]
       cannot be called has no text) *)
  showOpenDialog : list HostEvent -> Completion (option (list string));
  readFileSync : list HostEvent -> string -> Completion string;
  showSaveDialog : list HostEvent -> Completion (option string);
  writeFileSync : list HostEvent -> string -> string -> Completion unit;
}.

(** The fields of a [ChatViewProvider], and what it did so far. *)
Record Provider : Type := {
  _view : bool;                                    (* [_view] is set *)
  _enabledTools : list string;
  _chatHistory : list ChatEntry;
  events : list HostEvent;
}.

(** A computation of the provider.  A handler is run from its start to
    its end: what another handler would do to the provider while this one
    awaits the host is not part of the model. *)
Definition H (A : Type) : Type := Provider -> Completion A * Provider.

Definition h_ret {A} (a : A) : H A := fun st => (Normal a, st).

Definition h_bind {A B} (m : H A) (k : A -> H B) : H B :=
  fun st =>
    match m st with
    | (Normal a, st') => k a st'
    | (Throw e, st') => (Throw e, st')
    end.

#[global] Instance H_ret : MRet H := @h_ret.
#[global] Instance H_bind : MBind H := fun A B k m => h_bind m k.

Definition h_throw {A} (e : Thrown) : H A := fun st => (Throw e, st).

(** [try { m } catch (err) { h err }]. *)
Definition h_try_catch {A} (m : H A) (h : Thrown -> H A) : H A :=
  fun st =>
    match m st with
    | (Normal a, st') => (Normal a, st')
    | (Throw e, st') => h e st'
    end.

Definition h_read {A} (f : Provider -> A) : H A :=
  fun st => (Normal (f st), st).

(** An evaluation that leaves the provider alone. *)
Definition h_lift {A} (c : Completion A) : H A := fun st => (c, st).

Definition record_event (ev : HostEvent) (st : Provider) : Provider :=
  {| _view := _view st; _enabledTools := _enabledTools st;
     _chatHistory := _chatHistory st; events := events st ++ [ev] |}.

(** A call on the host: it is recorded, and it returns or throws as the
    host decides, given what was done before. *)
Definition h_call {A} (reply : list HostEvent -> Completion A)
    (ev : HostEvent) : H A :=
  fun st => (reply (events st), record_event ev st).

(** [this._chatHistory.push(entry)]. *)
Definition remember (entry : ChatEntry) : H unit :=
  fun st =>
    (Normal tt,
     {| _view := _view st; _enabledTools := _enabledTools st;
        _chatHistory := _chatHistory st ++ [entry]; events := events st |}).

(** [this._view.webview.postMessage(m)]. *)
Definition post (m : WebviewMessage) : H unit :=
  fun st => (Normal tt, record_event (Posted m) st).

(** [this._view?.webview.postMessage(m)]. *)
Definition post_if_view (m : WebviewMessage) : H unit :=
  fun st => if _view st then post m st else (Normal tt, st).

(** [this._enabledTools = tools]. *)
Definition set_enabledTools (tools : list string) : H unit :=
  fun st =>
    (Normal tt,
     {| _view := _view st; _enabledTools := tools;
        _chatHistory := _chatHistory st; events := events st |}).

(** The [descriptions] table of [_buildToolDescriptions]. *)
Definition descriptions : list (string * string) :=
  [ ("goto",
     "goto: { " +:+ q "action" +:+ ": " +:+ q "goto" +:+ ", " +:+ q "url"
       +:+ ": " +:+ q "<string>" +:+ " } - Navigate to a URL");
    ("clickText",
     "clickText: { " +:+ q "action" +:+ ": " +:+ q "clickText" +:+ ", "
       +:+ q "text" +:+ ": " +:+ q "<string>"
       +:+ " } - Click element by visible text");
    ("type",
     "type: { " +:+ q "action" +:+ ": " +:+ q "type" +:+ ", "
       +:+ q "selector" +:+ ": " +:+ q "<string>" +:+ ", " +:+ q "value"
       +:+ ": " +:+ q "<string>" +:+ " } - Type into an element");
    ("waitForText",
     "waitForText: { " +:+ q "action" +:+ ": " +:+ q "waitForText" +:+ ", "
       +:+ q "text" +:+ ": " +:+ q "<string>"
       +:+ " } - Wait for text to appear");
    ("extractText",
     "extractText: { " +:+ q "action" +:+ ": " +:+ q "extractText" +:+ ", "
       +:+ q "selector" +:+ ": " +:+ q "<string>"
       +:+ " } - Extract text from element");
    ("snapshotText",
     "snapshotText: { " +:+ q "action" +:+ ": " +:+ q "snapshotText"
       +:+ " } - Get all visible text from page body");
    ("screenshot",
     "screenshot: { " +:+ q "action" +:+ ": " +:+ q "screenshot" +:+ ", "
       +:+ q "name" +:+ ": " +:+ q "<string>" +:+ " } - Take a screenshot");
    ("closeBrowser",
     "closeBrowser: { " +:+ q "action" +:+ ": " +:+ q "closeBrowser"
       +:+ " } - Close the browser") ].

Fixpoint own_description (t : string) (table : list (string * string))
  : option string :=
  match table with
  | [] => None
  | (k, d) :: rest => if decide (t = k) then Some d else own_description t rest
  end.

(** [this._enabledTools.length > 0 ? this._enabledTools
     : AVAILABLE_TOOLS.slice()]. *)
Definition effective_tools (enabled : list string) : list string :=
  if bool_decide (0 < length enabled) then enabled else AVAILABLE_TOOLS.

Definition executing_message : string := "Executing plan...".

Definition lm_missing_message : string :=
  "VS Code Language Model API is not available in this version of VS Code.".

Definition no_models_message : string :=
  "No language models available. Please ensure GitHub Copilot is installed and signed in.".

(** [!models || models.length === 0]. *)
Definition no_models (models : option (list string)) : bool :=
  match models with
  | None | Some [] => true
  | Some (_ :: _) => false
  end.

(** [`${r.action}: ${r.success ? 'success' : 'failed'} ${r.data ?? ''}
     ${r.error ?? ''}`]. *)
Definition result_line (r : ExecutionResult) : string :=
  ExecutionResult.action r +:+ ": "
    +:+ (if ExecutionResult.success r then "success" else "failed")
    +:+ " " +:+ default "" (ExecutionResult.data r)
    +:+ " " +:+ default "" (ExecutionResult.error r).

Definition interpretation_prompt (rs : list ExecutionResult) : string :=
  "The following Playwright steps were executed:" +:+ nl
    +:+ join nl (map result_line rs) +:+ nl
    +:+ "Please provide a brief summary of what happened.".

Definition invalid_plan_message (errs : list string) : string :=
  "Invalid action plan:" +:+ nl +:+ join nl errs.

Definition export_header : string :=
  "# Playwright Chat Runner - Export" +:+ nl.

Section Provider.
Context (host : Host).

(** [descriptions[t] ?? t], as [join] renders it. *)
Definition describe (t : string) : string :=
  match own_description t descriptions with
  | Some d => d
  | None => default t (inherited_text host t)
  end.

Definition _buildToolDescriptions : H string :=
  enabled ← h_read _enabledTools;
  mret (join nl (map describe (effective_tools enabled))).

Definition system_prompt (toolDescriptions : string) : string :=
  "You are a Playwright automation assistant." +:+ nl
    +:+ "You MUST return ONLY valid JSON in this exact format: { "
    +:+ q "steps" +:+ ": [ ... ] }" +:+ nl
    +:+ "If you need clarification, return: { " +:+ q "clarification"
    +:+ ": " +:+ q "your question here" +:+ " }" +:+ nl
    +:+ "Do NOT assume missing information. Ask before proceeding if unsure."
    +:+ nl
    +:+ "Available tools:" +:+ nl +:+ toolDescriptions +:+ nl
    +:+ "ONLY use tools from the available list above.".

Definition select (s : Selector) : H (option (list string)) :=
  h_call (fun evs => selectChatModels host evs s) (ModelsSelected s).

(** One of the fallbacks of [_callLLM]: select again when nothing was
    found so far. *)
Definition or_select (models : option (list string)) (s : Selector)
  : H (option (list string)) :=
  if no_models models then select s else mret models.

Definition _callLLM (systemPrompt userText : string) : H string :=
  if negb (lm_available host) then h_throw (ErrorInstance lm_missing_message)
  else
    models ← select (CopilotFamily "gpt-4o");
    models ← or_select models (CopilotFamily "gpt-4o-mini");
    models ← or_select models CopilotVendor;
    models ← or_select models AnyModel;
    match models with
    | Some (model :: _) =>
        let content :=
          systemPrompt +:+ nl +:+ nl +:+ "User request: " +:+ userText in
        chunks ← h_call (fun evs => sendRequest host evs model content)
                   (RequestSent model content);
        mret (trim (foldl String.append "" chunks))
    | _ => h_throw (ErrorInstance no_models_message)
    end.

(** [new PlaywrightRunner().executePlan(plan)], in a fresh browser. *)
Definition run_plan_in_browser (plan : ActionPlan) : H (list ExecutionResult) :=
  fun st =>
    match executePlan (platform host) (browser_for host (events st)) plan
            initial with
    | (c, rst) => (c, record_event (PlanExecuted plan (trace rst)) st)
    end.

(** The [for (const result of results)] loop of [_handleSubmit]. *)
Fixpoint report_results (rs : list ExecutionResult) : H unit :=
  match rs with
  | [] => mret tt
  | r :: rest =>
      remember (ChatEntry.mk RoleResult (JString (JSON_stringify host r))
                  (Some r));;
      post (executionResult r);;
      report_results rest
  end.

(** The inner [try] of [_handleSubmit]: the parsed value, if any, and
    [isClarification]. *)
Definition parse_response (response : string) : option JsValue * bool :=
  match JSON_parse host response with
  | Normal parsed =>
      (Some parsed,
       typeof_object parsed && negb (is_null parsed)
         && has_key "clarification" parsed)
  | Throw _ => (None, true)
  end.

(** [parsed && typeof parsed === 'object' && 'clarification' in parsed
     ? parsed.clarification : response]. *)
Definition display_text (parsed : option JsValue) (response : string)
  : JsValue :=
  match parsed with
  | Some v =>
      if typeof_object v && negb (is_null v) && has_key "clarification" v
      then get "clarification" v
      else JString response
  | None => JString response
  end.

(** The [try] block of [_handleSubmit]. *)
Definition answer (text : string) : H unit :=
  toolDescriptions ← _buildToolDescriptions;
  let systemPrompt := system_prompt toolDescriptions in
  response ← _callLLM systemPrompt text;
  let '(parsed, isClarification) := parse_response response in
  if isClarification then
    let displayText := display_text parsed response in
    remember (ChatEntry.mk RoleLlm displayText None);;
    post (llmMessage displayText)
  else
    enabled ← h_read _enabledTools;
    let validation :=
      validateActionPlan (default JUndefined parsed) (effective_tools enabled) in
    match plan validation with
    | Some p =>
        if negb (valid validation) then
          let errorMsg := invalid_plan_message (errors validation) in
          remember (ChatEntry.mk RoleLlm (JString errorMsg) None);;
          post (errorMessage errorMsg)
        else
          remember (ChatEntry.mk RoleLlm (JString executing_message) None);;
          post (llmMessage (JString executing_message));;
          rs ← run_plan_in_browser p;
          report_results rs;;
          interpretation ←
            _callLLM systemPrompt (interpretation_prompt rs);
          remember (ChatEntry.mk RoleLlm (JString interpretation) None);;
          post (llmMessage (JString interpretation))
    | None =>
        let errorMsg := invalid_plan_message (errors validation) in
        remember (ChatEntry.mk RoleLlm (JString errorMsg) None);;
        post (errorMessage errorMsg)
    end.

Definition _handleSubmit (text : string) : H unit :=
  v ← h_read _view;
  if negb v then mret tt
  else
    remember (ChatEntry.mk RoleUser (JString text) None);;
    post (userMessage text);;
    h_try_catch (answer text)
      (fun err =>
         remember (ChatEntry.mk RoleLlm
                     (JString ("Error: " +:+ err_text err)) None);;
         post_if_view (errorMessage (err_text err))).

Definition _handleLoadFile : H unit :=
  uris ← h_call (showOpenDialog host) OpenDialogShown;
  match uris with
  | Some (uri :: _) =>
      h_try_catch
        (content ← h_call (fun evs => readFileSync host evs uri) (FileRead uri);
         post_if_view (loadedFile content);;
         _handleSubmit content)
        (fun err =>
           post_if_view
             (errorMessage ("Failed to load file: " +:+ err_text err)))
  | _ => mret tt
  end.

(** [`${entry.text}`]. *)
Definition entry_text (v : JsValue) : Completion string :=
  match v with
  | JString s => Normal s
  | _ => template_text host v
  end.

(** The lines [_handleExport] pushes for one entry of the history, or
    what rendering the entry throws. *)
Definition export_entry (entry : ChatEntry) : Completion (list string) :=
  match ChatEntry.role entry with
  | RoleUser =>
      match entry_text (ChatEntry.text entry) with
      | Normal t => Normal ["## User" +:+ nl +:+ nl +:+ t +:+ nl]
      | Throw e => Throw e
      end
  | RoleLlm =>
      match entry_text (ChatEntry.text entry) with
      | Normal t => Normal ["## Assistant" +:+ nl +:+ nl +:+ t +:+ nl]
      | Throw e => Throw e
      end
  | RoleResult =>
      match ChatEntry.result entry with
      | Some r =>
          Normal ["## Execution Result" +:+ nl +:+ nl +:+ "```json" +:+ nl
                    +:+ JSON_stringify_indented host r +:+ nl +:+ "```"
                    +:+ nl]
      | None => Normal []
      end
  end.

(** The [for (const entry of this._chatHistory)] loop of [_handleExport]:
    the lines pushed, entry by entry; it stops at the first entry that
    throws. *)
Fixpoint export_sections (history : list ChatEntry)
  : Completion (list string) :=
  match history with
  | [] => Normal []
  | entry :: rest =>
      match export_entry entry with
      | Normal pushed =>
          match export_sections rest with
          | Normal more => Normal (pushed ++ more)
          | Throw e => Throw e
          end
      | Throw e => Throw e
      end
  end.

Definition export_lines (history : list ChatEntry)
  : Completion (list string) :=
  match export_sections history with
  | Normal sections => Normal (export_header :: sections)
  | Throw e => Throw e
  end.

Definition _handleExport : H unit :=
  uri ← h_call (showSaveDialog host) SaveDialogShown;
  match uri with
  | Some path =>
      h_try_catch
        (history ← h_read _chatHistory;
         lines ← h_lift (export_lines history);
         let content := join nl lines in
         h_call (fun evs => writeFileSync host evs path content)
           (FileWritten path content);;
         h_call (fun _ => Normal tt)
           (InformationShown ("Results exported to " +:+ path)))
        (fun err =>
           h_call (fun _ => Normal tt)
             (ErrorShown ("Export failed: " +:+ err_text err)))
  | None => mret tt
  end.

(** The listener that [resolveWebviewView] registers with
    [onDidReceiveMessage]. *)
Definition onDidReceiveMessage (message : ViewRequest) : H unit :=
  match message with
  | submit text => _handleSubmit text
  | loadFile => _handleLoadFile
  | exportResults => _handleExport
  | updateTools tools => set_enabledTools tools
  | otherRequest _ => mret tt
  end.

End Provider.

(** ** Notions for the further properties *)

(** The input that carries the steps [l] and nothing else. *)
Definition steps_object (l : list JsValue) : JsValue :=
  JObject [("steps", JArray l)].

(** The keys that the validator and the runner read in a step. *)
Definition step_keys : list string :=
  ["action"; "url"; "text"; "selector"; "value"; "name"].

(** What makes a step acceptable under an allow-list: its action is a
    string of the allow-list and of the schema, and every field the
    table requires for it is present. *)
Definition acceptable (tools : list string) (e : JsValue) : Prop :=
  ∃ a, get "action" e = JString a ∧ a ∈ tools ∧ a ∈ AVAILABLE_TOOLS ∧
       Forall (λ f, field_present e f = true) (required_fields a).

(** A result is well shaped: it has an error exactly when it is not a
    success, and a failure carries no data. *)
Definition well_shaped (r : ExecutionResult) : Prop :=
  (ExecutionResult.success r = true ↔ ExecutionResult.error r = None) ∧
  (ExecutionResult.success r = false → ExecutionResult.data r = None).

(** The path at which [executeStep] takes the screenshot named [n]. *)
Definition screenshot_path (P : Platform) (n : string) : string :=
  path_join P (tmpdir P) (replace_unsafe (path_basename P n) +:+ ".png").

(** The provider [st'] is [st] with the entries [hist] added to the
    history and the events [evs] to what it did, and nothing else
    changed. *)
Definition grows_by (st st' : Provider) (hist : list ChatEntry)
    (evs : list HostEvent) : Prop :=
  _view st' = _view st ∧
  _enabledTools st' = _enabledTools st ∧
  _chatHistory st' = _chatHistory st ++ hist ∧
  events st' = events st ++ evs.

(** The provider with one more entry in its history. *)
Definition with_entry (entry : ChatEntry) (st : Provider) : Provider :=
  {| _view := _view st; _enabledTools := _enabledTools st;
     _chatHistory := _chatHistory st ++ [entry]; events := events st |}.

Definition user_entry (text : string) : ChatEntry :=
  ChatEntry.mk RoleUser (JString text) None.

Definition llm_entry (text : JsValue) : ChatEntry :=
  ChatEntry.mk RoleLlm text None.

(** An event of [_callLLM]. *)
Definition lm_event (ev : HostEvent) : Prop :=
  match ev with
  | ModelsSelected _ | RequestSent _ _ => True
  | _ => False
  end.

(** The result that an event posts to the webview, if it posts one. *)
Definition posted_result (ev : HostEvent) : option ExecutionResult :=
  match ev with
  | Posted (executionResult r) => Some r
  | _ => None
  end.

(** The plan that an event executes, if it executes one. *)
Definition executed_plan (ev : HostEvent) : option ActionPlan :=
  match ev with
  | PlanExecuted p _ => Some p
  | _ => None
  end.

(** What JavaScript makes of a parsed JSON value in a template literal
    (numbers being integers of fewer than 22 digits).  An object that has
    a property [toString] of its own, which JSON cannot make a function,
    has no text; an array is its elements' texts between commas, [null]
    giving none. *)
Fixpoint js_to_string (v : JsValue) : Completion string :=
  match v with
  | JUndefined => Normal "undefined"
  | JNull => Normal "null"
  | JBoolean b => Normal (if b then "true" else "false")
  | JNumber n => Normal (pretty n)
  | JString s => Normal s
  | JArray elems =>
      match
        (fix items (l : list JsValue) : Completion (list string) :=
           match l with
           | [] => Normal []
           | e :: rest =>
               match
                 match e with
                 | JUndefined | JNull => Normal ""
                 | _ => js_to_string e
                 end
               with
               | Normal s =>
                   match items rest with
                   | Normal r => Normal (s :: r)
                   | Throw x => Throw x
                   end
               | Throw x => Throw x
               end
           end) elems
      with
      | Normal texts => Normal (join "," texts)
      | Throw x => Throw x
      end
  | JObject props =>
      if bool_decide ("toString" ∈ props.*1)
      then Throw (ErrorInstance "Cannot convert object to primitive value")
      else Normal "[object Object]"
  end.

(** A host whose language model answers [response] to every request, and
    whose [JSON.parse] is [parse]; its browsers are obliging, its dialogs
    are cancelled. *)
Definition scripted_host (response : string)
    (parse : string -> Completion JsValue) : Host :=
  {| platform := linux;
     lm_available := true;
     selectChatModels := fun _ _ => Normal (Some ["model"]);
     sendRequest := fun _ _ _ => Normal [response];
     JSON_parse := parse;
     JSON_stringify := result_line;
     JSON_stringify_indented := result_line;
     browser_for := fun _ => obliging "";
     inherited_text := fun _ => None;
     template_text := js_to_string;
     showOpenDialog := fun _ => Normal None;
     readFileSync := fun _ _ => Throw (ErrorInstance "ENOENT");
     showSaveDialog := fun _ => Normal None;
     writeFileSync := fun _ _ _ => Normal tt |}.



(** A provider with a view, no tool selected and no history. *)
Definition fresh_provider : Provider :=
  {| _view := true; _enabledTools := []; _chatHistory := []; events := [] |}.

(** The content of the message that [_callLLM] sends. *)
Definition llm_content (systemPrompt userText : string) : string :=
  systemPrompt +:+ nl +:+ nl +:+ "User request: " +:+ userText.

(** The provider after [_callLLM] made the host calls [evs]. *)
Definition after_events (evs : list HostEvent) (st : Provider) : Provider :=
  {| _view := _view st; _enabledTools := _enabledTools st;
     _chatHistory := _chatHistory st; events := events st ++ evs |}.

(** How [_callLLM] ends once the selections [evs] have found the model
    [m]: the request is sent, and its chunks are put together and
    trimmed. *)
Definition request_outcome (host : Host) (st : Provider)
    (evs : list HostEvent) (m content : string)
  : Completion string * Provider :=
  (match sendRequest host (events st ++ evs) m content with
   | Normal chunks => Normal (trim (foldl String.append "" chunks))
   | Throw e => Throw e
   end,
   after_events (evs ++ [RequestSent m content]) st).

(** The entry that [_handleSubmit] keeps of one result. *)
Definition result_entry (host : Host) (r : ExecutionResult) : ChatEntry :=
  ChatEntry.mk RoleResult (JString (JSON_stringify host r)) (Some r).

(** The system prompt that a provider in state [st] gives the model. *)
Definition prompt_of (host : Host) (st : Provider) : string :=
  system_prompt (join nl (map (describe host)
                            (effective_tools (_enabledTools st)))).

(** The provider once [_handleSubmit] has kept and posted the user's
    text. *)
Definition after_user (text : string) (st : Provider) : Provider :=
  record_event (Posted (userMessage text)) (with_entry (user_entry text) st).

(** The provider once it has kept and posted [d] as a message of the
    model. *)
Definition shown (d : JsValue) (st : Provider) : Provider :=
  record_event (Posted (llmMessage d)) (with_entry (llm_entry d) st).

(** The provider once it has kept and posted the error [msg] of a
    rejected plan. *)
Definition rejected (msg : string) (st : Provider) : Provider :=
  record_event (Posted (errorMessage msg))
    (with_entry (llm_entry (JString msg)) st).

(** [typeof v === 'object' && v !== null && 'clarification' in v]. *)
Definition asks_clarification (v : JsValue) : bool :=
  typeof_object v && negb (is_null v) && has_key "clarification" v.

(** ** getNonce (chatProvider.ts) *)

Definition possible : string :=
  "ABCDEFGHIJKLMNOPQRSTUVWXYZabcdefghijklmnopqrstuvwxyz0123456789".

(** [s.charAt(i)]: the empty string when [i] is out of range. *)
Definition charAt (s : string) (i : nat) : string :=
  match String.get i s with
  | Some c => String c ""
  | None => ""
  end.

(** [getNonce()].  [draw i] is the value of
    [Math.floor(Math.random() * possible.length)] in the round [i] of the
    loop: a natural number, [Math.random()] being never negative. *)
Definition getNonce (draw : nat -> nat) : string :=
  foldl (fun text i => text +:+ charAt possible (draw i)) "" (seq 0 32).

(** A letter or a digit. *)
Definition is_alnum (c : ascii) : bool := is_alpha c || is_digit c.

(** * Properties of the validator *)

(** The tests of the repository, on the model. *)
Example test_accepts_goto :
  let r := validateActionPlan
             (JObject [("steps", JArray [JObject [("action", JString "goto");
                                        ("url", JString "https://example.com")]])])
             AVAILABLE_TOOLS in
  valid r = true /\ length (errors r) = 0 /\
  (length ∘ steps) <$> plan r = Some 1.
Proof. vm_compute. done. Qed.

Example test_collects_all_errors :
  let r := validateActionPlan
             (JObject [("steps", JArray
                [JObject [("action", JString "goto")];
                 JObject [("action", JString "type");
                          ("selector", JString "#x")]])])
             AVAILABLE_TOOLS in
  valid r = false /\ length (errors r) = 2.
Proof. vm_compute. done. Qed.

Example test_rejects_disabled :
  let r := validateActionPlan
             (JObject [("steps", JArray [JObject [("action", JString "goto");
                                        ("url", JString "https://example.com")]])])
             ["clickText"] in
  valid r = false /\
  existsb (fun e => includes e "not in the enabled tools list") (errors r)
  = true.
Proof. vm_compute. done. Qed.

Example basename_examples :
  posix_basename "/foo/bar/quux.html" = "quux.html" ∧
  posix_basename "a/b/" = "b" ∧
  posix_basename "/" = "" ∧
  posix_basename "../../evil<script>" = "evil<script>" ∧
  posix_basename "plain" = "plain".
Proof. vm_compute. done. Qed.

Example url_examples :
  scheme_only_URL "https://example.com" = Normal "https:" ∧
  scheme_only_URL "file:///etc/passwd" = Normal "file:" ∧
  scheme_only_URL "javascript:alert(1)" = Normal "javascript:" ∧
  scheme_only_URL "HTTP://x" = Normal "http:" ∧
  scheme_only_URL "" = Throw (ErrorInstance "Invalid URL") ∧
  scheme_only_URL "example.com/path" = Throw (ErrorInstance "Invalid URL").
Proof. vm_compute. done. Qed.



Section StringFacts.

Lemma app_cons (c : ascii) (s t : string) :
  String c s +:+ t = String c (s +:+ t).
Proof. reflexivity. Qed.

Lemma app_empty (t : string) : "" +:+ t = t.
Proof. reflexivity. Qed.

Lemma string_app_assoc (s t u : string) :
  (s +:+ t) +:+ u = s +:+ (t +:+ u).
Proof.
  induction s as [|c s IH]; [done|]. by rewrite !app_cons, IH.
Qed.

Lemma prefix_app (s t : string) : String.prefix s (s +:+ t) = true.
Proof.
  induction s as [|c s IH].
  - by destruct t.
  - rewrite app_cons. simpl. destruct (ascii_dec c c); [done | congruence].
Qed.

Lemma includes_prefix (s sub : string) :
  String.prefix sub s = true → includes s sub = true.
Proof. intros H. destruct s; cbn [includes]; by rewrite H. Qed.

Lemma includes_app_r (s t sub : string) :
  includes t sub = true → includes (s +:+ t) sub = true.
Proof.
  intros H. induction s as [|c s IH]; [done|].
  rewrite app_cons. simpl. rewrite IH. apply orb_true_r.
Qed.

Lemma includes_middle (s sub t : string) :
  includes (s +:+ sub +:+ t) sub = true.
Proof. apply includes_app_r, includes_prefix, prefix_app. Qed.

Lemma pretty_N_char_digit x : is_digit (pretty_N_char x) = true.
Proof. unfold pretty_N_char. by repeat case_match. Qed.

Lemma pretty_N_go_digits x s :
  all_chars is_digit s = true → all_chars is_digit (pretty_N_go x s) = true.
Proof.
  revert s. induction (N.lt_wf_0 x) as [x _ IH]; intros s Hs.
  assert (x = 0 ∨ 0 < x)%N as [->|Hx] by lia.
  - by rewrite pretty_N_go_0.
  - rewrite pretty_N_go_step by done. apply IH.
    + by apply N.div_lt.
    + simpl. by rewrite pretty_N_char_digit, Hs.
Qed.

Lemma pretty_nat_digits (n : nat) : all_chars is_digit (pretty n) = true.
Proof.
  unfold pretty, pretty_nat, pretty, pretty_N. case_decide; [done|].
  by apply pretty_N_go_digits.
Qed.

(** Two digit strings followed by a non-digit: the split is unique. *)
Lemma digits_then_other (d1 d2 r1 r2 : string) (c1 c2 : ascii) :
  all_chars is_digit d1 = true → all_chars is_digit d2 = true →
  is_digit c1 = false → is_digit c2 = false →
  d1 +:+ String c1 r1 = d2 +:+ String c2 r2 →
  d1 = d2 ∧ r1 = r2.
Proof.
  revert d2. induction d1 as [|a d1 IH]; intros [|b d2];
    rewrite ?app_cons, ?app_empty; simpl; intros H1 H2 Hc1 Hc2 Heq.
  - by simplify_eq.
  - simplify_eq. apply andb_prop in H2 as [? _]. congruence.
  - simplify_eq. apply andb_prop in H1 as [? _]. congruence.
  - apply andb_prop in H1 as [_ H1]. apply andb_prop in H2 as [_ H2].
    injection Heq as -> Heq. destruct (IH d2 H1 H2 Hc1 Hc2 Heq) as [-> ->].
    done.
Qed.

(** The index and the message can be read back from a per-step error. *)
Lemma step_prefix_inj (i j : nat) (m1 m2 : string) :
  step_prefix i +:+ m1 = step_prefix j +:+ m2 → i = j ∧ m1 = m2.
Proof.
  unfold step_prefix. rewrite !string_app_assoc, !app_cons, !app_empty.
  intros [= H].
  apply digits_then_other in H as [Hp [= ->]];
    auto using pretty_nat_digits.
  split; [|done]. by apply (inj pretty).
Qed.

End StringFacts.

Section ValidatorFacts.

Lemma get_defined_object (k : string) (v : JsValue) :
  get k v ≠ JUndefined → ∃ props, v = JObject props.
Proof. destruct v; simpl; try done. eauto. Qed.

Lemma get_object_checks (k : string) (v w : JsValue) :
  get k v = w → w ≠ JUndefined →
  negb (typeof_object v) || is_null v = false.
Proof.
  intros <- H. by destruct (get_defined_object _ _ H) as [props ->].
Qed.

Lemma elem_of_concat {A} (x : A) (ls : list (list A)) :
  x ∈ concat ls ↔ ∃ l, l ∈ ls ∧ x ∈ l.
Proof.
  induction ls as [|l ls IH]; simpl.
  - setoid_rewrite elem_of_nil. naive_solver.
  - rewrite elem_of_app, IH. setoid_rewrite elem_of_cons. naive_solver.
Qed.

(** The loop collects the errors of every element, each validated under
    its own index. *)
Lemma validateSteps_imap (elems : list JsValue) (i : nat)
    (tools : list string) :
  validateSteps elems i tools
  = concat (imap (λ k e, validateStep e (i + k) tools) elems).
Proof.
  revert i. induction elems as [|e rest IH]; intros i; simpl; [done|].
  rewrite Nat.add_0_r, IH. do 2 f_equal.
  apply imap_ext. intros k x _. simpl. f_equal. lia.
Qed.

(** On an input with an array of steps, the result is decided by the
    loop alone. *)
Lemma validateActionPlan_array (raw : JsValue) (tools : list string)
    (elems : list JsValue) :
  get "steps" raw = JArray elems →
  let errs := validateSteps elems 0 tools in
  errors (validateActionPlan raw tools) = errs ∧
  valid (validateActionPlan raw tools) = bool_decide (errs = []) ∧
  plan (validateActionPlan raw tools)
  = if bool_decide (errs = []) then Some {| steps := map asActionStep elems |}
    else None.
Proof.
  intros Hsteps errs. unfold validateActionPlan.
  rewrite (get_object_checks _ _ _ Hsteps) by done. rewrite Hsteps.
  fold errs. by destruct errs as [|e errs'].
Qed.

Lemma validateFields_prefixed (s : JsValue) (i : nat) (a err : string) :
  err ∈ validateFields s i a → ∃ msg, err = step_prefix i +:+ msg.
Proof.
  unfold validateFields.
  repeat case_decide; repeat case_match;
    rewrite ?elem_of_app, ?elem_of_cons, ?elem_of_nil;
    intros Herr; destruct_or?; try done; subst err; eauto.
Qed.

Lemma validateStep_prefixed (s : JsValue) (i : nat) (tools : list string)
    (err : string) :
  err ∈ validateStep s i tools → ∃ msg, err = step_prefix i +:+ msg.
Proof.
  unfold validateStep.
  repeat case_match; try apply validateFields_prefixed;
    rewrite ?elem_of_cons, ?elem_of_nil;
    intros Herr; destruct_or?; try done; subst err; eauto.
Qed.

(** A step object with a string action runs the two action checks. *)
Lemma validateStep_action (s : JsValue) (i : nat) (tools : list string)
    (a : string) :
  get "action" s = JString a →
  validateStep s i tools
  = if negb (tool_enabled tools a) then [disabled_message i a]
    else validateFields s i a.
Proof.
  intros H. unfold validateStep.
  rewrite (get_object_checks _ _ _ H) by done. by rewrite H.
Qed.

(** On the eight kinds, the switch is the required-field table. *)
Lemma validateFields_table (s : JsValue) (i : nat) (a : string) :
  a ∈ AVAILABLE_TOOLS →
  validateFields s i a
  = map (field_error i a)
        (List.filter (λ f, negb (field_present s f)) (required_fields a)).
Proof.
  unfold AVAILABLE_TOOLS. rewrite !elem_of_cons, elem_of_nil.
  intros H. destruct_or?; try done; subst a;
    unfold validateFields, required_fields, field_present, field_error;
    simpl; repeat (case_decide; try done);
    repeat (destruct (not_nonempty_string _));
    repeat (destruct (typeof_string _)); reflexivity.
Qed.

(** Off the eight kinds, the switch takes its default branch. *)
Lemma validateFields_default (s : JsValue) (i : nat) (a : string) :
  a ∉ AVAILABLE_TOOLS → validateFields s i a = [unknown_message i a].
Proof.
  unfold AVAILABLE_TOOLS. rewrite !not_elem_of_cons. intros H.
  destruct_and?. unfold validateFields.
  repeat (case_decide; try done).
Qed.

End ValidatorFacts.

(** ** Error accumulation *)

(** C7. For every input whose [steps] field is an array, the errors of
    [validateActionPlan] are the errors of per-step validation of every
    element, each under its own 0-based index, concatenated in order: no
    element is skipped after a failing one, and every error of every step
    is reported.  The plan is valid exactly when that list is empty.  In
    particular, for a two-step plan whose steps have one error each, the
    result is invalid with exactly those two errors, the first prefixed
    [Step 0: ] and the second [Step 1: ]. *)
Theorem validateActionPlan_accumulates (raw : JsValue)
    (tools : list string) (elems : list JsValue) :
  get "steps" raw = JArray elems →
  let r := validateActionPlan raw tools in
  errors r = concat (imap (λ i e, validateStep e i tools) elems) ∧
  valid r = bool_decide (errors r = []) ∧
  (∀ i e err,
     elems !! i = Some e → err ∈ validateStep e i tools → err ∈ errors r) ∧
  (∀ e0 e1 m0 m1,
     elems = [e0; e1] →
     validateStep e0 0 tools = [m0] → validateStep e1 1 tools = [m1] →
     valid r = false ∧ errors r = [m0; m1] ∧
     (∃ t0, m0 = step_prefix 0 +:+ t0) ∧ (∃ t1, m1 = step_prefix 1 +:+ t1)).
Proof.
  intros Hsteps r.
  destruct (validateActionPlan_array raw tools elems Hsteps) as (He & Hv & _).
  fold r in He, Hv. rewrite <- He in Hv.
  rewrite validateSteps_imap in He. simpl in He.
  split; [exact He|]. split; [exact Hv|]. split.
  - intros i e err Hi Herr. rewrite He. apply elem_of_concat.
    exists (validateStep e i tools). split; [|done].
    apply elem_of_lookup_imap. eauto.
  - intros e0 e1 m0 m1 -> H0 H1.
    assert (Herrs : errors r = [m0; m1]).
    { rewrite He. simpl. by rewrite H0, H1. }
    split; [by rewrite Hv, Herrs|]. split; [done|]. split.
    + apply (validateStep_prefixed e0 0 tools). rewrite H0. by left.
    + apply (validateStep_prefixed e1 1 tools). rewrite H1. by left.
Qed.

(** The two-defect plan of the test suite: one error per step. *)
Lemma validateActionPlan_accumulates_witness :
  get "steps" raw_two_defects = JArray [obj_goto_no_url; obj_type_no_value] ∧
  errors (validateActionPlan raw_two_defects AVAILABLE_TOOLS)
  = [ step_prefix 0 +:+ q "goto" +:+ " requires a non-empty " +:+ q "url"
        +:+ " string";
      step_prefix 1 +:+ q "type" +:+ " requires a " +:+ q "value"
        +:+ " string" ].
Proof.
  split; [reflexivity|].
  destruct (validateActionPlan_accumulates raw_two_defects AVAILABLE_TOOLS
              [obj_goto_no_url; obj_type_no_value] eq_refl)
    as (_ & _ & _ & Htwo).
  destruct (Htwo _ _ _ _ eq_refl eq_refl eq_refl) as (_ & -> & _).
  reflexivity.
Defined.

(** ** The shape of the error strings *)

(** C8, as stated, fails: the two whole-plan errors carry no step index.
    An input that is not an object is answered with the single error
    [Plan must be a JSON object], which is not of the form
    [Step <index>: <message>] for any index and message. *)
Lemma plan_level_error_has_no_step_index :
  ∃ err,
    err ∈ errors (validateActionPlan (JString "not an object") AVAILABLE_TOOLS) ∧
    ∀ i msg, err ≠ step_prefix i +:+ msg.
Proof.
  exists "Plan must be a JSON object". split.
  - simpl. by left.
  - intros i msg. unfold step_prefix. rewrite !string_app_assoc, !app_cons.
    discriminate.
Qed.

(** C8, amended. For every input whose [steps] field is an array, every
    error string returned by [validateActionPlan] is an error of some step
    of the array and reads [Step <index>: <message>] with <index> the
    0-based position of that step.  For a step whose action is enabled and
    is one of the eight kinds, the errors are exactly the required-field
    errors of the fields the step lacks, in table order, and each of them
    names the step index (in its prefix), the kind and the field (both
    between double quotes). *)
Theorem step_errors_follow_pattern (raw : JsValue) (tools : list string)
    (elems : list JsValue) :
  get "steps" raw = JArray elems →
  (∀ err, err ∈ errors (validateActionPlan raw tools) →
     ∃ i step msg,
       elems !! i = Some step ∧ err ∈ validateStep step i tools ∧
       err = step_prefix i +:+ msg) ∧
  (∀ i step a,
     elems !! i = Some step → get "action" step = JString a →
     a ∈ tools → a ∈ AVAILABLE_TOOLS →
     validateStep step i tools
     = map (field_error i a)
         (List.filter (λ f, negb (field_present step f)) (required_fields a)) ∧
     ∀ f, (∃ msg, field_error i a f = step_prefix i +:+ msg) ∧
          includes (field_error i a f) (q a) = true ∧
          includes (field_error i a f) (q f.1) = true).
Proof.
  intros Hsteps. split.
  - intros err Herr.
    destruct (validateActionPlan_array raw tools elems Hsteps) as (He & _).
    rewrite He, validateSteps_imap in Herr. simpl in Herr.
    apply elem_of_concat in Herr as (l & Hl & Herr).
    apply elem_of_lookup_imap in Hl as (i & step & -> & Hi).
    destruct (validateStep_prefixed _ _ _ _ Herr) as [msg ->].
    exists i, step, msg. done.
  - intros i step a Hi Ha Hen Hkind. split.
    + rewrite (validateStep_action _ _ _ _ Ha). unfold tool_enabled.
      rewrite bool_decide_eq_true_2 by done. simpl.
      by apply validateFields_table.
    + intros f. unfold field_error. split; [eauto|]. split.
      * apply includes_middle.
      * rewrite <- !string_app_assoc. rewrite string_app_assoc.
        apply includes_middle.
Qed.

(** A [type] step without [value], at index 0 (the scenario of the
    specification): one error, naming step 0 and the field [value]. *)
Lemma step_errors_follow_pattern_witness :
  let step := JObject [("action", JString "type");
                       ("selector", JString "#input")] in
  let raw := JObject [("steps", JArray [step])] in
  get "steps" raw = JArray [step] ∧
  validateStep step 0 AVAILABLE_TOOLS = [field_error 0 "type" ("value", false)] ∧
  includes (field_error 0 "type" ("value", false)) "value" = true.
Proof.
  intros step raw. split; [reflexivity|].
  destruct (step_errors_follow_pattern raw AVAILABLE_TOOLS [step] eq_refl)
    as (_ & Hfields).
  destruct (Hfields 0 step "type" eq_refl eq_refl) as (-> & _).
  - vm_compute. do 2 right. by left.
  - vm_compute. do 2 right. by left.
  - split; reflexivity.
Defined.

(** ** Unknown and disabled actions *)

(** C6, as stated, fails: an action outside the schema that is (as usual)
    also outside the allow-list is answered with the disabled-action
    message, word for word the one a disabled schema kind gets, and not
    with the unknown-action message. *)
Lemma unknown_action_reported_as_disabled :
  ("deleteEverything" ∉ AVAILABLE_TOOLS) ∧
  validateStep obj_unknown 0 AVAILABLE_TOOLS
  = [disabled_message 0 "deleteEverything"] ∧
  validateStep (JObject [("action", JString "goto");
                         ("url", JString "https://example.com")])
    0 ["clickText"]
  = [disabled_message 0 "goto"] ∧
  includes (disabled_message 0 "deleteEverything") "unknown action" = false.
Proof.
  split; [|split; [|split]]; try reflexivity.
  unfold AVAILABLE_TOOLS. rewrite !not_elem_of_cons. repeat split; try done.
  apply not_elem_of_nil.
Qed.

(** The error for a missing field is neither of the two action messages. *)
Lemma field_error_distinct (i : nat) (a : string) (f : string * bool)
    (j : nat) (b : string) :
  field_error i a f ≠ disabled_message j b ∧
  field_error i a f ≠ unknown_message j b.
Proof.
  unfold field_error, disabled_message, unknown_message, q, dquote.
  split; intros H; apply step_prefix_inj in H as [_ H];
    rewrite !string_app_assoc, !app_cons, !app_empty in H; discriminate.
Qed.

(** C6, amended. For every step object whose action is a string [a]:
    if [a] is absent from the allow-list, in the schema or not, validation
    yields exactly the disabled-action message; if [a] is in the allow-list
    but is none of the eight schema kinds, validation yields exactly the
    unknown-action message.  These are the only cases: a disabled-action
    message is among the errors of the step exactly when [a] is absent
    from the allow-list, and an unknown-action message exactly when [a]
    is in the allow-list and is none of the eight schema kinds (so an
    action that is enabled and in the schema gets neither).  Both are
    errors (the step is rejected), and no disabled-action message equals
    any unknown-action message, whatever the indices and the action
    strings. *)
Theorem unknown_versus_disabled (step : JsValue) (i : nat)
    (tools : list string) (a : string) :
  get "action" step = JString a →
  (a ∉ tools → validateStep step i tools = [disabled_message i a]) ∧
  (a ∈ tools → a ∉ AVAILABLE_TOOLS →
   validateStep step i tools = [unknown_message i a]) ∧
  ((∃ j b, disabled_message j b ∈ validateStep step i tools) ↔ a ∉ tools) ∧
  ((∃ j b, unknown_message j b ∈ validateStep step i tools) ↔
   a ∈ tools ∧ a ∉ AVAILABLE_TOOLS) ∧
  (∀ j b k c, disabled_message j b ≠ unknown_message k c).
Proof.
  intros Ha.
  assert (Hneq : ∀ j b k c, disabled_message j b ≠ unknown_message k c).
  { intros j b k c. unfold disabled_message, unknown_message.
    intros H. apply step_prefix_inj in H as [_ H]. discriminate. }
  rewrite (validateStep_action _ _ _ _ Ha). unfold tool_enabled.
  destruct (decide (a ∈ tools)) as [Hin|Hout].
  - rewrite bool_decide_eq_true_2 by done. simpl.
    destruct (decide (a ∈ AVAILABLE_TOOLS)) as [Hknown|Hunk].
    + rewrite (validateFields_table _ _ _ Hknown).
      split_and!; [done | done | | | exact Hneq].
      * split; [|done]. intros (j & b & Hel).
        apply (list_elem_of_fmap_1 (field_error i a)) in Hel as (f & Hf & _).
        symmetry in Hf. by apply field_error_distinct in Hf.
      * split; [|by intros [_ ?]]. intros (j & b & Hel).
        apply (list_elem_of_fmap_1 (field_error i a)) in Hel as (f & Hf & _).
        symmetry in Hf. by apply field_error_distinct in Hf.
    + rewrite (validateFields_default _ _ _ Hunk).
      split_and!; [done | done | | | exact Hneq].
      * split; [|done]. intros (j & b & Hel).
        apply elem_of_cons in Hel as [Hel|Hel]; [|by apply elem_of_nil in Hel].
        by apply Hneq in Hel.
      * split; [done|]. intros _. exists i, a. by left.
  - rewrite bool_decide_eq_false_2 by done. simpl.
    split_and!; [done | done | | | exact Hneq].
    + split; [done|]. intros _. exists i, a. by left.
    + split; [|by intros [? _]]. intros (j & b & Hel).
      apply elem_of_cons in Hel as [Hel|Hel]; [|by apply elem_of_nil in Hel].
      symmetry in Hel. by apply Hneq in Hel.
Qed.

(** An unknown action that the caller has put on the allow-list gets the
    unknown-action message; off the allow-list it gets the disabled-action
    message and no unknown-action message. *)
Lemma unknown_versus_disabled_witness :
  get "action" obj_unknown = JString "deleteEverything" ∧
  validateStep obj_unknown 3 ["goto"] = [disabled_message 3 "deleteEverything"] ∧
  validateStep obj_unknown 3 ["deleteEverything"]
  = [unknown_message 3 "deleteEverything"] ∧
  ¬ (∃ j b, unknown_message j b ∈ validateStep obj_unknown 3 ["goto"]).
Proof.
  assert (Hout : "deleteEverything" ∉ ["goto"]).
  { intros H. apply elem_of_cons in H as [H|H]; [done|].
    by apply elem_of_nil in H. }
  assert (Hunk : "deleteEverything" ∉ AVAILABLE_TOOLS).
  { unfold AVAILABLE_TOOLS. rewrite !not_elem_of_cons. repeat split; try done.
    apply not_elem_of_nil. }
  destruct (unknown_versus_disabled obj_unknown 3 ["goto"] "deleteEverything"
              eq_refl) as (Hd & _ & _ & Hiff & _).
  destruct (unknown_versus_disabled obj_unknown 3 ["deleteEverything"]
              "deleteEverything" eq_refl) as (_ & Hu & _).
  split_and!; [reflexivity | exact (Hd Hout) | | ].
  - apply Hu; [by left | exact Hunk].
  - intros Hex. apply Hiff in Hex as [Hin _]. exact (Hout Hin).
Defined.

(** * Properties of the runner *)

Ltac run_step :=
  unfold executeStep, dispatch, checkUrl, try_catch;
  unfold mbind, M_bind, bind, mret, M_ret, ret, call, lift; simpl.

Section RunnerFacts.
Context (P : Platform) (browser : Browser).

Lemma add_calls_nil st : add_calls [] st = st.
Proof. destruct st. unfold add_calls. simpl. by rewrite app_nil_r. Qed.

(** [executeStep] always returns a result, tagged with the step's action;
    it makes at most the browser call of the step's kind, and leaves the
    variables of [executePlan] alone. *)
Lemma executeStep_spec (step : ActionStep) (st : RunState) :
  ∃ r calls,
    executeStep P browser step st = (Normal r, add_calls calls st) ∧
    ExecutionResult.action r = action step ∧
    Forall (call_for (action step)) calls.
Proof.
  run_step.
  repeat case_decide;
    repeat (case_match; simplify_eq/=).
  all: try (eexists _, []; rewrite add_calls_nil; split; [reflexivity|];
            split; [reflexivity | constructor]).
  all: try (eexists _, [_]; split; [reflexivity|];
            split; [reflexivity | repeat constructor; done]).
Qed.

Lemma executeStep_closeBrowser (step : ActionStep) (st : RunState) :
  action step = "closeBrowser" →
  executeStep P browser step st = (Normal (succeeded step None), st).
Proof.
  intros H. run_step. rewrite H. by repeat (case_decide; try done).
Qed.

Lemma attempts_facts st l rs st' :
  attempts P browser st l rs st' →
  Forall2 (λ s r, ExecutionResult.action r = action s ∧
                  (action s = "closeBrowser" → r = succeeded s None)) l rs ∧
  results st' = results st ++ rs ∧
  browser_set st' = browser_set st ∧
  ∃ calls, trace st' = trace st ++ calls ∧
           Forall (λ c, ∃ s, s ∈ l ∧ call_for (action s) c) calls.
Proof.
  induction 1 as [st | st step r st1 l rs st' Hstep Hrest IH].
  - repeat split; [constructor | by rewrite app_nil_r |].
    exists []. by rewrite app_nil_r.
  - destruct (executeStep_spec step st) as (r' & calls & Hs & Hact & Hcalls).
    rewrite Hstep in Hs. injection Hs as -> ->.
    destruct IH as (Hall & Hres & Hb & calls' & Htr & Hcalls').
    simpl in *. split; [|split; [|split]].
    + constructor; [|done]. split; [done|]. intros Hclose.
      rewrite (executeStep_closeBrowser _ _ Hclose) in Hstep. congruence.
    + by rewrite Hres, <- app_assoc.
    + done.
    + exists (calls ++ calls'). split; [by rewrite Htr, app_assoc|].
      apply Forall_app. split.
      * eapply Forall_impl; [exact Hcalls|]. intros c Hc. exists step.
        split; [by left | done].
      * eapply Forall_impl; [exact Hcalls'|]. intros c (s & Hin & Hc).
        exists s. split; [by right | done].
Qed.

(** The loop attempts exactly the steps up to the first [closeBrowser],
    and never throws. *)
Lemma runSteps_attempts (l : list ActionStep) (st : RunState) :
  ∃ rs st',
    runSteps P browser l st = (Normal tt, st') ∧
    attempts P browser st (attempted l) rs st'.
Proof.
  revert st. induction l as [|step rest IH]; intros st; simpl.
  - exists [], st. split; [done | constructor].
  - destruct (executeStep_spec step st) as (r & calls & Hs & _).
    case_decide.
    + exists [r], (add_results [r] (add_calls calls st)). split.
      * unfold mbind, M_bind, bind. by rewrite Hs.
      * econstructor; [exact Hs | constructor].
    + destruct (IH (add_results [r] (add_calls calls st)))
        as (rs & st' & Hrun & Hatt).
      exists (r :: rs), st'. split.
      * unfold mbind, M_bind, bind. rewrite Hs. simpl. exact Hrun.
      * econstructor; [exact Hs | exact Hatt].
Qed.

(** Position by position: a step is attempted when no step before it is
    a [closeBrowser]. *)
Lemma attempted_lookup (l : list ActionStep) (i : nat) (s : ActionStep) :
  attempted l !! i = Some s ↔
  l !! i = Some s ∧
  ∀ j s', j < i → l !! j = Some s' → action s' ≠ "closeBrowser".
Proof.
  revert i. induction l as [|step rest IH]; intros i; simpl.
  - split; [done | by intros [? _]].
  - case_decide as Hc.
    + destruct i as [|i]; simpl.
      * split; [intros [= ->]; split; [done | intros; lia] | by intros [? _]].
      * split; [done|]. intros [_ H]. destruct (H 0 step); [lia|done..].
    + destruct i as [|i]; simpl.
      * split; [intros [= ->]; split; [done | intros; lia] | by intros [? _]].
      * rewrite IH. split; intros [Hi Hbefore]; (split; [done|]).
        -- intros [|j] s' Hj Hs'; simpl in Hs'; [by simplify_eq|].
           apply (Hbefore j); [lia | done].
        -- intros j s' Hj Hs'. apply (Hbefore (S j)); [lia | done].
Qed.

(** [executePlan] once the session is open: the loop, then the close. *)
Lemma executePlan_opened (plan : ActionPlan) :
  init_succeeds browser →
  ∃ rs st_b,
    runSteps P browser (steps plan) session_open = (Normal tt, st_b) ∧
    attempts P browser session_open (attempted (steps plan)) rs st_b ∧
    executePlan P browser plan initial
    = (Normal rs, add_calls [BrowserClose] st_b) ∧
    results st_b = rs.
Proof.
  intros ([b Hl] & [c Hc] & [p Hp]).
  destruct (runSteps_attempts (steps plan) session_open)
    as (rs & st_b & Hrun & Hatt).
  exists rs, st_b. split; [done|]. split; [done|].
  destruct (attempts_facts _ _ _ _ Hatt) as (_ & Hres & Hb & _).
  simpl in Hres, Hb. split; [|done].
  unfold executePlan, teardown, openAndRun, try_finally, try_catch, read.
  unfold mbind, M_bind, bind, mret, M_ret, ret, call, set_browser. simpl.
  rewrite Hl. simpl. rewrite Hc. simpl. rewrite Hp. simpl.
  fold session_open. rewrite Hrun, Hb.
  subst rs. by destruct (browser (trace st_b) BrowserClose).
Qed.

End RunnerFacts.

(** ** One result per attempted step *)

(** C1. When session initialisation succeeds, [executePlan] returns
    (it does not throw) the results of running [executeStep] on each
    attempted step in turn, one result per attempted step and in plan
    order: the result at position [i] carries the action of the plan's
    step at position [i], and there is a result at position [i] exactly
    when the plan has a step there and no step before it has action
    [closeBrowser].  The result of a [closeBrowser] step has success
    [true] and no data.  In particular a plan [goto, closeBrowser,
    screenshot] gives exactly two results and the browser is never asked
    for a screenshot. *)
Theorem executePlan_one_result_per_attempted_step (P : Platform)
    (browser : Browser) (plan : ActionPlan) :
  init_succeeds browser →
  ∃ rs st',
    executePlan P browser plan initial = (Normal rs, st') ∧
    (∃ st_b, attempts P browser session_open (attempted (steps plan)) rs st_b) ∧
    length rs = length (attempted (steps plan)) ∧
    (∀ i r, rs !! i = Some r →
       ∃ s, steps plan !! i = Some s ∧
            ExecutionResult.action r = action s ∧
            (action s = "closeBrowser" →
             ExecutionResult.success r = true ∧
             ExecutionResult.data r = None)) ∧
    (∀ i, is_Some (rs !! i) ↔
          is_Some (steps plan !! i) ∧
          ∀ j s, j < i → steps plan !! j = Some s →
                 action s ≠ "closeBrowser") ∧
    (∀ s1 s2 s3,
       steps plan = [s1; s2; s3] →
       action s1 = "goto" → action s2 = "closeBrowser" →
       action s3 = "screenshot" →
       length rs = 2 ∧ ∀ path, PageScreenshot path ∉ trace st').
Proof.
  intros Hinit.
  destruct (executePlan_opened P browser plan Hinit)
    as (rs & st_b & _ & Hatt & Hexec & _).
  destruct (attempts_facts _ _ _ _ _ _ Hatt) as (Hall & _ & _ & calls & Htr & Hcalls).
  pose proof (Forall2_length _ _ _ Hall) as Hlen.
  exists rs, (add_calls [BrowserClose] st_b).
  split; [done|]. split; [eauto|]. split; [done|]. split; [|split].
  - intros i r Hi.
    destruct (Forall2_lookup_r _ _ _ _ _ Hall Hi) as (s & Hs & Hact & Hclose).
    apply attempted_lookup in Hs as [Hs _].
    exists s. split; [done|]. split; [done|].
    intros Hc. by rewrite (Hclose Hc).
  - intros i.
    rewrite (lookup_lt_is_Some rs i), <- Hlen,
      <- (lookup_lt_is_Some (attempted (steps plan)) i).
    split.
    + intros [s Hs]. apply attempted_lookup in Hs as [Hs Hbefore].
      split; [eauto | done].
    + intros [[s Hs] Hbefore].
      exists s. by apply attempted_lookup.
  - intros s1 s2 s3 Hplan H1 H2 H3. rewrite Hplan in *. simpl in *.
    rewrite H1, H2 in *.
    repeat (case_decide; simplify_eq/=). split; [done|].
    intros path Hin. rewrite Htr in Hin. simpl in Hin.
    rewrite !elem_of_cons, !elem_of_app, !elem_of_cons, elem_of_nil in Hin.
    destruct Hin as [?|[?|[?|[Hin|[?|[]]]]]]; try done.
    rewrite Forall_forall in Hcalls.
    destruct (Hcalls _ Hin) as (s & Hs & Hc). simpl in Hc.
    rewrite !elem_of_cons, elem_of_nil in Hs.
    destruct Hs as [->|[->|[]]]; congruence.
Qed.

(** The plan [goto, closeBrowser, screenshot] in an obliging browser. *)
Lemma executePlan_one_result_per_attempted_step_witness :
  init_succeeds (obliging "") ∧
  ∃ rs st',
    executePlan linux (obliging "")
      {| steps := [step_goto "https://example.com"; step_closeBrowser;
                   step_screenshot "shot"] |} initial
    = (Normal rs, st') ∧
    length rs = 2.
Proof.
  assert (Hinit : init_succeeds (obliging "")).
  { repeat split; by exists "". }
  split; [exact Hinit|].
  destruct (executePlan_one_result_per_attempted_step linux (obliging "")
              {| steps := [step_goto "https://example.com"; step_closeBrowser;
                           step_screenshot "shot"] |} Hinit)
    as (rs & st' & Hexec & _ & _ & _ & _ & Hexample).
  exists rs, st'. split; [exact Hexec|].
  by destruct (Hexample _ _ _ eq_refl eq_refl eq_refl eq_refl).
Defined.

(** ** Session initialisation and teardown *)

Ltac run_plan :=
  unfold executePlan, teardown, openAndRun, try_finally, try_catch, read,
    push, set_browser;
  unfold mbind, M_bind, bind, mret, M_ret, ret, call; simpl.

Ltac session_calls :=
  repeat (apply Forall_cons; split; [unfold session_call; auto 6|]);
  by apply Forall_nil.

Section SessionInit.
Context (P : Platform) (browser : Browser).

Lemma init_cases : init_succeeds browser ∨ ∃ e, init_throws browser e.
Proof.
  unfold init_succeeds, init_throws.
  destruct (browser [] Launch) as [b|e] eqn:Hl;
    [|right; exists e; by left].
  destruct (browser [Launch] NewContext) as [c|e] eqn:Hc;
    [|right; exists e; right; left; eauto].
  destruct (browser [Launch; NewContext] NewPage) as [p|e] eqn:Hp;
    [|right; exists e; right; right; eauto].
  left. repeat split; eauto.
Qed.

(** [executePlan] when opening the session throws: one result, and no
    call but those that open and close the session. *)
Lemma executePlan_init_failure (plan : ActionPlan) (e : Thrown) :
  init_throws browser e →
  ∃ st',
    executePlan P browser plan initial = (Normal [browser_init e], st') ∧
    Forall session_call (trace st').
Proof.
  unfold init_throws.
  intros [Hl | [([b Hl] & Hc) | ([b Hl] & [c Hc] & Hp)]]; run_plan.
  - rewrite Hl. simpl. eexists. split; [reflexivity|].
    simpl. session_calls.
  - rewrite Hl. simpl. rewrite Hc. simpl.
    destruct (browser _ BrowserClose); simpl;
      (eexists; split; [reflexivity|]); simpl; session_calls.
  - rewrite Hl. simpl. rewrite Hc. simpl. rewrite Hp. simpl.
    destruct (browser _ BrowserClose); simpl;
      (eexists; split; [reflexivity|]); simpl; session_calls.
Qed.

End SessionInit.

Section Agreement.
Context (P : Platform) (browser browser' : Browser).

(** The two browsers answer alike, except perhaps when closed. *)
Hypothesis agree :
  ∀ h c, c ≠ BrowserClose → browser' h c = browser h c.

Lemma executeStep_agree (step : ActionStep) (st : RunState) :
  executeStep P browser' step st = executeStep P browser step st.
Proof.
  run_step.
  repeat case_decide; repeat case_match; simplify_eq/=;
    rewrite ?agree in * by done; congruence.
Qed.

Lemma runSteps_agree (l : list ActionStep) (st : RunState) :
  runSteps P browser' l st = runSteps P browser l st.
Proof.
  revert st. induction l as [|step rest IH]; intros st; simpl; [done|].
  case_decide; unfold mbind, M_bind, bind; rewrite executeStep_agree;
    [done|].
  destruct (executeStep P browser step st) as [[r|e] st1]; [|done].
  destruct (push r st1) as [[[]|e] st2]; [|done]. apply IH.
Qed.

(** What the browser answers when closed does not show in the outcome
    of [executePlan]. *)
Lemma executePlan_agree (plan : ActionPlan) :
  executePlan P browser' plan initial = executePlan P browser plan initial.
Proof.
  run_plan.
  rewrite (agree [] Launch), (agree [Launch] NewContext),
    (agree [Launch; NewContext] NewPage) by done.
  destruct (browser [] Launch); simpl; [|done].
  destruct (browser [Launch] NewContext); simpl.
  - destruct (browser [Launch; NewContext] NewPage); simpl.
    + rewrite runSteps_agree.
      destruct (runSteps P browser (steps plan) _) as [[[]|e] st]; simpl;
        destruct (browser_set st); simpl; try done;
        by destruct (browser' _ BrowserClose), (browser _ BrowserClose).
    + by destruct (browser' _ BrowserClose), (browser _ BrowserClose).
  - by destruct (browser' _ BrowserClose), (browser _ BrowserClose).
Qed.

End Agreement.

(** C4. If browser, context or page creation throws, [executePlan]
    returns (it does not throw) exactly one result: action
    [browser-init], which is none of the schema's action kinds, success
    [false], no data, and the failure message as error.  No step is
    attempted: the browser is asked for nothing but opening and closing
    the session. *)
Theorem init_failure_yields_single_sentinel (P : Platform)
    (browser : Browser) (plan : ActionPlan) (e : Thrown) :
  init_throws browser e →
  ∃ st',
    executePlan P browser plan initial
    = (Normal [ExecutionResult.mk "browser-init" false None
                 (Some (err_text e))], st') ∧
    Forall session_call (trace st') ∧
    "browser-init" ∉ AVAILABLE_TOOLS.
Proof.
  intros Hinit.
  destruct (executePlan_init_failure P browser plan e Hinit)
    as (st' & Hexec & Hcalls).
  exists st'. split; [exact Hexec|]. split; [exact Hcalls|].
  unfold AVAILABLE_TOOLS. rewrite !not_elem_of_cons.
  repeat split; try done. apply not_elem_of_nil.
Qed.

(** A browser that cannot be launched. *)
Lemma init_failure_yields_single_sentinel_witness :
  init_throws (unlaunchable "no chromium") (ErrorInstance "no chromium") ∧
  ∃ st',
    executePlan linux (unlaunchable "no chromium")
      {| steps := [step_goto "https://example.com"; step_closeBrowser] |}
      initial
    = (Normal [ExecutionResult.mk "browser-init" false None
                 (Some "no chromium")], st').
Proof.
  assert (H : init_throws (unlaunchable "no chromium")
                (ErrorInstance "no chromium")) by (left; reflexivity).
  split; [exact H|].
  destruct (init_failure_yields_single_sentinel linux
              (unlaunchable "no chromium")
              {| steps := [step_goto "https://example.com";
                           step_closeBrowser] |} _ H)
    as (st' & Hexec & _).
  exists st'. exact Hexec.
Defined.

(** C5. Whenever the browser was launched, whatever happens next (the
    plan runs to its end, stops at a [closeBrowser], has failing steps, or
    context or page creation throws), [executePlan] closes the browser:
    [browser.close] is its last call, and it is called once.  Whether
    that call returns or throws makes no difference: [executePlan] returns
    (it does not throw) exactly the results collected before closing, and
    so it does with any browser that differs only in what it answers when
    closed. *)
Theorem teardown_closes_and_swallows (P : Platform) (browser : Browser)
    (plan : ActionPlan) :
  (∃ b, browser [] Launch = Normal b) →
  ∃ rs body_trace,
    try_catch (openAndRun P browser plan) (λ e, push (browser_init e)) initial
    = (Normal tt,
       {| trace := body_trace; results := rs; browser_set := true |}) ∧
    (BrowserClose ∉ body_trace) ∧
    executePlan P browser plan initial
    = (Normal rs,
       {| trace := body_trace ++ [BrowserClose]; results := rs;
          browser_set := true |}) ∧
    ∀ browser' : Browser,
      (∀ h c, c ≠ BrowserClose → browser' h c = browser h c) →
      executePlan P browser' plan initial
      = (Normal rs,
         {| trace := body_trace ++ [BrowserClose]; results := rs;
            browser_set := true |}).
Proof.
  intros [b Hl].
  cut (∃ rs body_trace,
    try_catch (openAndRun P browser plan) (λ e, push (browser_init e)) initial
    = (Normal tt,
       {| trace := body_trace; results := rs; browser_set := true |}) ∧
    (BrowserClose ∉ body_trace) ∧
    executePlan P browser plan initial
    = (Normal rs,
       {| trace := body_trace ++ [BrowserClose]; results := rs;
          browser_set := true |})).
  { intros (rs & body_trace & Hbody & Hno & Hexec).
    exists rs, body_trace. repeat split; try done.
    intros browser' Hagree. by rewrite (executePlan_agree P browser browser'). }
  destruct (browser [Launch] NewContext) as [c|e] eqn:Hc;
    [destruct (browser [Launch; NewContext] NewPage) as [p|e] eqn:Hp|].
  - destruct (executePlan_opened P browser plan) as (rs & st_b & Hrun & Hatt & Hexec & Hres).
    { repeat split; eauto. }
    destruct (attempts_facts _ _ _ _ _ _ Hatt)
      as (_ & _ & Hb & calls & Htr & Hcalls).
    destruct st_b as [t rs' bs]. simpl in *. subst rs' bs t.
    exists rs, ([Launch; NewContext; NewPage] ++ calls).
    split; [|split; [|exact Hexec]].
    + run_plan. rewrite Hl. simpl. rewrite Hc. simpl. rewrite Hp. simpl.
      fold session_open. by rewrite Hrun.
    + intros Hin. apply elem_of_app in Hin as [Hin|Hin].
      * repeat (apply elem_of_cons in Hin as [?|Hin]; [done|]).
        by apply elem_of_nil in Hin.
      * rewrite Forall_forall in Hcalls.
        by destruct (Hcalls _ Hin) as (s & _ & Hfalse).
  - exists [browser_init e], [Launch; NewContext; NewPage].
    run_plan. rewrite Hl. simpl. rewrite Hc. simpl. rewrite Hp. simpl.
    split; [done|]. split.
    + rewrite !elem_of_cons, elem_of_nil. intros [?|[?|[?|[]]]]; done.
    + by destruct (browser _ BrowserClose).
  - exists [browser_init e], [Launch; NewContext].
    run_plan. rewrite Hl. simpl. rewrite Hc. simpl.
    split; [done|]. split.
    + rewrite !elem_of_cons, elem_of_nil. intros [?|[?|[]]]; done.
    + by destruct (browser _ BrowserClose).
Qed.

(** A failing step, then a [closeBrowser], in a browser whose [close]
    throws. *)
Lemma teardown_closes_and_swallows_witness :
  (∃ b, close_fails "close failed" [] Launch = Normal b) ∧
  ∃ rs t,
    executePlan linux (close_fails "close failed")
      {| steps := [step_goto "file:///etc/passwd"; step_closeBrowser] |}
      initial
    = (Normal rs,
       {| trace := t ++ [BrowserClose]; results := rs; browser_set := true |}).
Proof.
  assert (H : ∃ b, close_fails "close failed" [] Launch = Normal b)
    by (by exists "").
  split; [exact H|].
  destruct (teardown_closes_and_swallows linux (close_fails "close failed")
              {| steps := [step_goto "file:///etc/passwd";
                           step_closeBrowser] |} H)
    as (rs & t & _ & _ & Hexec & _).
  exists rs, t. exact Hexec.
Defined.

(** ** The URL check of [goto] *)

Section StepFacts.
Context (P : Platform) (browser : Browser).

(** A [goto] with a url: the guard, the URL check, then the call. *)
Lemma executeStep_goto (step : ActionStep) (u : string)
    (st : RunState) :
  action step = "goto" → url step = Some u →
  executeStep P browser step st
  = if decide (u = "") then (Normal (failed step url_required), st)
    else
      match URL_protocol P u with
      | Throw e => (Normal (failed step (invalid_url u (err_text e))), st)
      | Normal proto =>
          if bool_decide (proto ≠ "http:") && bool_decide (proto ≠ "https:")
          then (Normal (failed step (scheme_rejected proto)), st)
          else
            (match browser (trace st) (PageGoto u) with
             | Normal _ => Normal (succeeded step None)
             | Throw e => Normal (failed step (err_text e))
             end, add_calls [PageGoto u] st)
      end.
Proof.
  intros Ha Hu. run_step. rewrite Ha, Hu. simpl.
  case_decide as Hempty; [by rewrite bool_decide_eq_true_2|].
  rewrite bool_decide_eq_false_2 by done.
  destruct (URL_protocol P u) as [proto|e]; simpl; [|done].
  destruct (bool_decide (proto ≠ "http:") && bool_decide (proto ≠ "https:"));
    simpl; [done|].
  by destruct (browser (trace st) (PageGoto u)).
Qed.

(** A [screenshot] with a name: one call, on the path made from the
    sanitised base name. *)
Lemma executeStep_screenshot (step : ActionStep) (n : string)
    (st : RunState) :
  action step = "screenshot" → name step = Some n →
  let screenshotPath :=
    path_join P (tmpdir P) (replace_unsafe (path_basename P n) +:+ ".png") in
  executeStep P browser step st
  = (match browser (trace st) (PageScreenshot screenshotPath) with
     | Normal _ => Normal (succeeded step (Some screenshotPath))
     | Throw e => Normal (failed step (err_text e))
     end, add_calls [PageScreenshot screenshotPath] st).
Proof.
  intros Ha Hn. run_step. rewrite Ha, Hn. simpl.
  by destruct (browser (trace st) (PageScreenshot _)).
Qed.

End StepFacts.

Lemma all_chars_app (f : ascii → bool) (s t : string) :
  all_chars f (s +:+ t) = all_chars f s && all_chars f t.
Proof.
  induction s as [|c s IH]; [done|].
  rewrite app_cons. simpl. by rewrite IH, andb_assoc.
Qed.

Lemma replace_unsafe_safe (s : string) :
  all_chars safe_char (replace_unsafe s) = true.
Proof.
  induction s as [|c s IH]; [done|]. simpl.
  rewrite IH, andb_true_r. by destruct (safe_char c) eqn:E.
Qed.

Lemma replace_unsafe_length (s : string) :
  String.length (replace_unsafe s) = String.length s.
Proof. induction s as [|c s IH]; simpl; [done | by rewrite IH]. Qed.

(** C2, as stated, fails on the empty URL string: it cannot be parsed,
    yet the failed result says that the url is required, which is neither
    the message about the scheme nor the one about an invalid URL. *)
Lemma empty_url_reported_as_missing :
  URL_protocol linux "" = Throw (ErrorInstance "Invalid URL") ∧
  executeStep linux (obliging "") (step_goto "") initial
  = (Normal (failed (step_goto "") url_required), initial) ∧
  (∀ proto, url_required ≠ scheme_rejected proto) ∧
  (∀ u msg, url_required ≠ invalid_url u msg).
Proof.
  split; [reflexivity|]. split; [reflexivity|]. split.
  - intros proto H. vm_compute in H. discriminate.
  - intros u msg H. vm_compute in H. discriminate.
Qed.

(** C2, amended. For every [goto] step whose url string cannot be parsed
    as a URL, or parses to a protocol other than [http:] and [https:],
    [executeStep] returns a failed result and makes no browser call at
    all, so the navigation call is not invoked.  When the url is not
    empty, the error cites the offending URL (unparseable) or the
    offending protocol (disallowed); when it is the empty string, the
    error is that the url is required. *)
Theorem blocked_goto_never_navigates (P : Platform) (browser : Browser)
    (step : ActionStep) (u : string) (st : RunState) :
  action step = "goto" → url step = Some u →
  (∀ e, URL_protocol P u = Throw e →
     executeStep P browser step st
     = (Normal (failed step (if decide (u = "") then url_required
                             else invalid_url u (err_text e))), st)) ∧
  (∀ proto, URL_protocol P u = Normal proto →
     proto ≠ "http:" → proto ≠ "https:" →
     executeStep P browser step st
     = (Normal (failed step (if decide (u = "") then url_required
                             else scheme_rejected proto)), st)) ∧
  (∀ msg, includes (invalid_url u msg) (q u) = true) ∧
  (∀ proto, includes (scheme_rejected proto) (q proto) = true).
Proof.
  intros Ha Hu. rewrite (executeStep_goto P browser step u st Ha Hu).
  split; [|split; [|split]].
  - intros e ->. by case_decide.
  - intros proto -> H1 H2. case_decide; [done|].
    by rewrite !bool_decide_eq_true_2.
  - intros msg. unfold invalid_url. apply includes_middle.
  - intros proto. unfold scheme_rejected.
    apply includes_app_r, includes_prefix.
    pose proof (prefix_app (q proto) "") as H.
    assert (Hnil : ∀ s, s +:+ "" = s).
    { induction s as [|c s IH]; [done | by rewrite app_cons, IH]. }
    by rewrite Hnil in H.
Qed.

(** The local-file and script URLs of the specification. *)
Lemma blocked_goto_never_navigates_witness :
  action (step_goto "file:///etc/passwd") = "goto" ∧
  url (step_goto "file:///etc/passwd") = Some "file:///etc/passwd" ∧
  executeStep linux (obliging "") (step_goto "file:///etc/passwd") initial
  = (Normal (failed (step_goto "file:///etc/passwd")
               (scheme_rejected "file:")), initial) ∧
  executeStep linux (obliging "") (step_goto "javascript:alert(1)") initial
  = (Normal (failed (step_goto "javascript:alert(1)")
               (scheme_rejected "javascript:")), initial) ∧
  executeStep linux (obliging "") (step_goto "not a url") initial
  = (Normal (failed (step_goto "not a url")
               (invalid_url "not a url" "Invalid URL")), initial).
Proof.
  split; [reflexivity|]. split; [reflexivity|]. split; [|split].
  - destruct (blocked_goto_never_navigates linux (obliging "")
                (step_goto "file:///etc/passwd") "file:///etc/passwd" initial
                eq_refl eq_refl) as (_ & H & _).
    by apply (H "file:").
  - destruct (blocked_goto_never_navigates linux (obliging "")
                (step_goto "javascript:alert(1)") "javascript:alert(1)"
                initial eq_refl eq_refl) as (_ & H & _).
    by apply (H "javascript:").
  - destruct (blocked_goto_never_navigates linux (obliging "")
                (step_goto "not a url") "not a url" initial
                eq_refl eq_refl) as (H & _).
    by apply (H (ErrorInstance "Invalid URL")).
Defined.

(** ** Screenshot names *)

(** C3, as stated, fails: the name is not stripped of the characters
    outside the class.  The runner first takes the base name, then puts an
    underscore in the place of each such character.  For the name of the
    specification's example the file is [evil_script_.png], where
    stripping would give [....evilscript.png]. *)
Lemma screenshot_name_is_not_stripped :
  executeStep linux (obliging "") (step_screenshot "../../evil<script>")
    initial
  = (Normal (succeeded (step_screenshot "../../evil<script>")
               (Some "/tmp/evil_script_.png")),
     add_calls [PageScreenshot "/tmp/evil_script_.png"] initial) ∧
  path_join linux (tmpdir linux)
    (strip_unsafe "../../evil<script>" +:+ ".png")
  = "/tmp/....evilscript.png" ∧
  "/tmp/evil_script_.png" ≠ "/tmp/....evilscript.png".
Proof. split; [reflexivity|]. split; [reflexivity | discriminate]. Qed.

(** C3, amended. For every [screenshot] step with a name, the name is
    sanitised by taking its base name ([path.basename]) and replacing each
    character outside [[A-Za-z0-9_.-]] by an underscore (so the length of
    the base name is kept).  The runner asks the browser for one
    screenshot, at the path that joins the temporary directory with the
    sanitised name plus [.png], and when that call returns the result is a
    success whose data is exactly that path.  The file name so joined has
    only characters of [[A-Za-z0-9_.-]].  On a POSIX host the name
    [../../evil<script>] is sanitised to [evil_script_]. *)
Theorem screenshot_path_from_sanitized_name (P : Platform)
    (browser : Browser) (step : ActionStep) (n : string) (st : RunState) :
  action step = "screenshot" → name step = Some n →
  let safeName := replace_unsafe (path_basename P n) in
  let screenshotPath := path_join P (tmpdir P) (safeName +:+ ".png") in
  (∃ r, executeStep P browser step st
        = (Normal r, add_calls [PageScreenshot screenshotPath] st) ∧
        ((∃ d, browser (trace st) (PageScreenshot screenshotPath) = Normal d) →
         r = succeeded step (Some screenshotPath)) ∧
        (ExecutionResult.success r = true →
         ExecutionResult.data r = Some screenshotPath)) ∧
  all_chars safe_char (safeName +:+ ".png") = true ∧
  String.length safeName = String.length (path_basename P n) ∧
  replace_unsafe (posix_basename "../../evil<script>") = "evil_script_".
Proof.
  intros Ha Hn safeName screenshotPath.
  split; [|split; [|split]].
  - rewrite (executeStep_screenshot P browser step n st Ha Hn).
    fold safeName. fold screenshotPath.
    destruct (browser (trace st) (PageScreenshot screenshotPath)) as [d|e].
    + eexists. split; [reflexivity|]. done.
    + eexists. split; [reflexivity|]. split; [by intros [d ?] | done].
  - rewrite all_chars_app. unfold safeName. by rewrite replace_unsafe_safe.
  - apply replace_unsafe_length.
  - reflexivity.
Qed.

(** The name of the test suite, on the example host. *)
Lemma screenshot_path_from_sanitized_name_witness :
  action (step_screenshot "about-page") = "screenshot" ∧
  name (step_screenshot "about-page") = Some "about-page" ∧
  ∃ r, executeStep linux (obliging "") (step_screenshot "about-page") initial
       = (Normal r, add_calls [PageScreenshot "/tmp/about-page.png"] initial) ∧
       ExecutionResult.data r = Some "/tmp/about-page.png".
Proof.
  split; [reflexivity|]. split; [reflexivity|].
  destruct (screenshot_path_from_sanitized_name linux (obliging "")
              (step_screenshot "about-page") "about-page" initial
              eq_refl eq_refl) as ((r & Hexec & Hok & _) & _).
  exists r. split; [exact Hexec|].
  rewrite Hok; [reflexivity | by exists ""].
Defined.

(** ** An accepted name whose file name is empty *)

(** C10. On a POSIX host, the screenshot step named [/] is accepted by
    [validateActionPlan], yet its sanitised file name is the empty string:
    the screenshot is taken at the path that joins the temporary directory
    with [.png] alone.  And two distinct accepted names, [a b] and [a_b],
    are taken at one and the same path. *)
Theorem accepted_name_with_empty_filename (tmp : string)
    (join : string → string → string) (urlp : string → Completion string)
    (browser : Browser) (st : RunState) :
  let P := posix tmp join urlp in
  plan (validateActionPlan (raw_screenshot "/") AVAILABLE_TOOLS)
  = Some {| steps := [step_screenshot "/"] |} ∧
  replace_unsafe (path_basename P "/") = "" ∧
  (∃ r, executeStep P browser (step_screenshot "/") st
        = (Normal r, add_calls [PageScreenshot (join tmp ".png")] st) ∧
        (ExecutionResult.success r = true →
         ExecutionResult.data r = Some (join tmp ".png"))) ∧
  "a b" ≠ "a_b" ∧
  plan (validateActionPlan (raw_screenshot "a b") AVAILABLE_TOOLS)
  = Some {| steps := [step_screenshot "a b"] |} ∧
  plan (validateActionPlan (raw_screenshot "a_b") AVAILABLE_TOOLS)
  = Some {| steps := [step_screenshot "a_b"] |} ∧
  (∃ r, executeStep P browser (step_screenshot "a b") st
        = (Normal r, add_calls [PageScreenshot (join tmp "a_b.png")] st)) ∧
  (∃ r, executeStep P browser (step_screenshot "a_b") st
        = (Normal r, add_calls [PageScreenshot (join tmp "a_b.png")] st)).
Proof.
  intros P.
  pose proof (λ n, executeStep_screenshot P browser (step_screenshot n) n st
                     eq_refl eq_refl) as Hshot.
  simpl in Hshot.
  split; [reflexivity|]. split; [reflexivity|]. split.
  { rewrite Hshot. change (posix_basename "/") with "".
    change (replace_unsafe "" +:+ ".png") with ".png".
    destruct (browser (trace st) _); eexists; (split; [reflexivity | done]). }
  split; [discriminate|]. split; [reflexivity|]. split; [reflexivity|].
  split.
  - rewrite Hshot. change (replace_unsafe (posix_basename "a b") +:+ ".png")
      with "a_b.png".
    destruct (browser (trace st) _); eexists; reflexivity.
  - rewrite Hshot. change (replace_unsafe (posix_basename "a_b") +:+ ".png")
      with "a_b.png".
    destruct (browser (trace st) _); eexists; reflexivity.
Qed.

(** ** Validated plans and the runner's defensive branches *)

Section ValidatedPlans.

Lemma not_nonempty_string_false (k : string) (v : JsValue) :
  not_nonempty_string (get k v) = false → nonempty (string_field k v).
Proof.
  unfold not_nonempty_string, string_field, nonempty.
  destruct (get k v) as [| | | |s| |]; try done.
  intros H. apply bool_decide_eq_false in H. eauto.
Qed.

Lemma typeof_string_true (k : string) (v : JsValue) :
  typeof_string (get k v) = true → is_Some (string_field k v).
Proof.
  unfold typeof_string, string_field. by destruct (get k v).
Qed.

(** A step without errors is well formed. *)
Lemma validateStep_nil_well_formed (e : JsValue) (i : nat)
    (tools : list string) :
  validateStep e i tools = [] → well_formed (asActionStep e).
Proof.
  unfold validateStep.
  destruct (negb (typeof_object e) || is_null e); [done|].
  destruct (get "action" e) as [| | | |a| |] eqn:Ha; try done.
  destruct (negb (tool_enabled tools a)); [done|].
  intros Hfields.
  assert (Haction : action (asActionStep e) = a).
  { unfold asActionStep, string_field. simpl. by rewrite Ha. }
  unfold well_formed. rewrite Haction. simpl.
  destruct (decide (a ∈ AVAILABLE_TOOLS)) as [Hin|Hout];
    [|by rewrite (validateFields_default e i a Hout) in Hfields].
  split; [done|]. clear Hin.
  unfold validateFields in Hfields.
  split_and!; intros ->; simpl in Hfields.
  - destruct (not_nonempty_string (get "url" e)) eqn:E; [done|].
    by apply not_nonempty_string_false.
  - destruct (not_nonempty_string (get "text" e)) eqn:E; [done|].
    by apply not_nonempty_string_false.
  - destruct (not_nonempty_string (get "selector" e)) eqn:E; [done|].
    destruct (typeof_string (get "value" e)) eqn:E'; [|done].
    split; [by apply not_nonempty_string_false | by apply typeof_string_true].
  - destruct (not_nonempty_string (get "text" e)) eqn:E; [done|].
    by apply not_nonempty_string_false.
  - destruct (not_nonempty_string (get "selector" e)) eqn:E; [done|].
    by apply not_nonempty_string_false.
  - destruct (not_nonempty_string (get "name" e)) eqn:E; [done|].
    by apply not_nonempty_string_false.
Qed.

Lemma validateSteps_nil (elems : list JsValue) (i : nat)
    (tools : list string) :
  validateSteps elems i tools = [] →
  Forall well_formed (map asActionStep elems).
Proof.
  revert i. induction elems as [|e rest IH]; intros i; simpl.
  - constructor.
  - intros H. apply app_eq_nil in H as [He Hrest]. constructor.
    + by apply (validateStep_nil_well_formed e i tools).
    + by apply (IH (S i)).
Qed.

(** The plan attached to a validation result has only well-formed
    steps. *)
Lemma validated_plan_well_formed (raw : JsValue) (tools : list string)
    (p : ActionPlan) :
  plan (validateActionPlan raw tools) = Some p →
  Forall well_formed (steps p).
Proof.
  unfold validateActionPlan.
  destruct (negb (typeof_object raw) || is_null raw); [done|].
  destruct (get "steps" raw) as [| | | | |elems|]; try done.
  destruct (validateSteps elems 0 tools) as [|err errs] eqn:E; [|done].
  simpl. intros [= <-]. simpl. by apply (validateSteps_nil elems 0 tools).
Qed.

Lemma well_formed_not_defensive (s : ActionStep) :
  well_formed s → ¬ takes_defensive_branch s.
Proof.
  intros (Hkind & Hgoto & _) [[Ha Hurl] | Hout]; [|done].
  destruct (Hgoto Ha) as (u & Hu & Hne). rewrite Hu in Hurl. simpl in Hurl.
  by apply bool_decide_eq_true in Hurl.
Qed.

End ValidatedPlans.

Section DefensiveBranches.
Context (P : Platform) (browser : Browser).

(** Where the error of a well-formed step's result comes from: the URL
    check, or the browser. *)
Lemma executeStep_well_formed_error (s : ActionStep) (st st' : RunState)
    (r : ExecutionResult) (m : string) :
  well_formed s →
  executeStep P browser s st = (Normal r, st') →
  ExecutionResult.error r = Some m →
  (∃ proto, m = scheme_rejected proto) ∨
  (∃ u msg, m = invalid_url u msg) ∨
  (∃ h c e, browser h c = Throw e ∧ m = err_text e).
Proof.
  intros (Hkind & Hgoto & Hclick & Htype & Hwait & Hextract & Hshot).
  unfold AVAILABLE_TOOLS in Hkind.
  rewrite !elem_of_cons, elem_of_nil in Hkind.
  destruct Hkind as [Ha|[Ha|[Ha|[Ha|[Ha|[Ha|[Ha|[Ha|[]]]]]]]]].
  - destruct (Hgoto Ha) as (u & Hu & Hne).
    rewrite (executeStep_goto P browser s u st Ha Hu).
    case_decide; [done|].
    destruct (URL_protocol P u) as [proto|e].
    + destruct (bool_decide (proto ≠ "http:") && bool_decide (proto ≠ "https:")).
      * intros [= <- <-] [= <-]. eauto.
      * destruct (browser (trace st) (PageGoto u)) eqn:E;
          intros [= <- <-]; [done|]. intros [= <-]. eauto 10.
    + intros [= <- <-] [= <-]. eauto.
  - run_step. rewrite Ha. simpl.
    destruct (browser (trace st) (ClickText (text s))) eqn:E;
      intros [= <- <-]; [done|]. intros [= <-]. eauto 10.
  - run_step. rewrite Ha. simpl.
    destruct (browser (trace st) (Fill (selector s) (value s))) eqn:E;
      intros [= <- <-]; [done|]. intros [= <-]. eauto 10.
  - run_step. rewrite Ha. simpl.
    destruct (browser (trace st) (WaitForText (text s))) eqn:E;
      intros [= <- <-]; [done|]. intros [= <-]. eauto 10.
  - run_step. rewrite Ha. simpl.
    destruct (browser (trace st) (FirstInnerText (selector s))) eqn:E;
      intros [= <- <-]; [done|]. intros [= <-]. eauto 10.
  - run_step. rewrite Ha. simpl.
    destruct (browser (trace st) BodyInnerText) eqn:E;
      intros [= <- <-]; [done|]. intros [= <-]. eauto 10.
  - destruct (Hshot Ha) as (n & Hn & _).
    rewrite (executeStep_screenshot P browser s n st Ha Hn).
    destruct (browser (trace st) (PageScreenshot _)) eqn:E;
      intros [= <- <-]; [done|]. intros [= <-]. eauto 10.
  - rewrite (executeStep_closeBrowser P browser s st Ha).
    by intros [= <- <-].
Qed.

Lemma attempts_sources st l rs st' :
  attempts P browser st l rs st' →
  ∀ r, r ∈ rs →
    ∃ s st0 st1, s ∈ l ∧ executeStep P browser s st0 = (Normal r, st1).
Proof.
  induction 1 as [st | st step r0 st1 l rs st' Hstep Hrest IH];
    intros r Hr.
  - by apply elem_of_nil in Hr.
  - apply elem_of_cons in Hr as [->|Hr].
    + exists step, st, st1. split; [by left | done].
    + destruct (IH r Hr) as (s & st0 & st2 & Hs & Hexec).
      exists s, st0, st2. split; [by right | done].
Qed.

Lemma attempted_subset (l : list ActionStep) (s : ActionStep) :
  s ∈ attempted l → s ∈ l.
Proof.
  intros Hs. apply list_elem_of_lookup in Hs as [i Hi].
  apply attempted_lookup in Hi as [Hi _].
  apply list_elem_of_lookup. eauto.
Qed.

End DefensiveBranches.

(** C9. If [validateActionPlan] accepts an input and attaches the plan
    [p] (with whatever allow-list, a subset of [AVAILABLE_TOOLS] or not),
    then every step of [p] has one of the eight action kinds and the
    fields that kind requires, so no step takes a defensive branch of
    [executeStep]: not the [goto] guard on a missing url, not the
    [default] of the switch.  Running [p] returns results whose errors
    all come from the branch of the step's own kind: from the URL check of
    [goto], or from what the browser threw.  So, in a browser that does
    not itself throw such texts, no result carries the error that the url
    is required for goto, and none an error that begins
    [Unknown action:]. *)
Theorem validated_plan_avoids_defensive_branches (raw : JsValue)
    (tools : list string) (p : ActionPlan) :
  plan (validateActionPlan raw tools) = Some p →
  Forall (λ s, well_formed s ∧ ¬ takes_defensive_branch s) (steps p) ∧
  ∀ (P : Platform) (browser : Browser),
    ∃ rs st',
      executePlan P browser p initial = (Normal rs, st') ∧
      (∀ r m, r ∈ rs → ExecutionResult.error r = Some m →
         (∃ proto, m = scheme_rejected proto) ∨
         (∃ u msg, m = invalid_url u msg) ∨
         (∃ h c e, browser h c = Throw e ∧ m = err_text e)) ∧
      (browser_errors_foreign browser →
       ∀ r, r ∈ rs →
         ExecutionResult.error r ≠ Some url_required ∧
         ∀ m, ExecutionResult.error r = Some m →
              String.prefix "Unknown action:" m = false).
Proof.
  intros Hplan.
  pose proof (validated_plan_well_formed raw tools p Hplan) as Hwf.
  split.
  { eapply Forall_impl; [exact Hwf|]. intros s Hs.
    split; [done | by apply well_formed_not_defensive]. }
  intros P browser.
  cut (∃ rs st',
         executePlan P browser p initial = (Normal rs, st') ∧
         ∀ r m, r ∈ rs → ExecutionResult.error r = Some m →
           (∃ proto, m = scheme_rejected proto) ∨
           (∃ u msg, m = invalid_url u msg) ∨
           (∃ h c e, browser h c = Throw e ∧ m = err_text e)).
  { intros (rs & st' & Hexec & Hsrc). exists rs, st'.
    split; [done|]. split; [done|]. intros Hforeign r Hr.
    assert (Hok : ∀ m, ExecutionResult.error r = Some m →
              m ≠ url_required ∧ String.prefix "Unknown action:" m = false).
    { intros m Hm.
      destruct (Hsrc r m Hr Hm)
        as [[proto ->] | [(u & msg & ->) | (h & c & e & Hthrow & ->)]].
      - split; [|reflexivity]. intros H. vm_compute in H. discriminate.
      - split; [|reflexivity]. intros H. vm_compute in H. discriminate.
      - by apply (Hforeign h c e). }
    split; [|intros m Hm; by apply Hok].
    intros Hm. by destruct (Hok _ Hm). }
  destruct (init_cases browser) as [Hinit | [e Hinit]].
  - destruct (executePlan_opened P browser p Hinit)
      as (rs & st_b & _ & Hatt & Hexec & _).
    exists rs, (add_calls [BrowserClose] st_b). split; [done|].
    intros r m Hr Hm.
    destruct (attempts_sources P browser _ _ _ _ Hatt r Hr)
      as (s & st0 & st1 & Hs & Hstep).
    apply attempted_subset in Hs.
    rewrite Forall_forall in Hwf.
    by apply (executeStep_well_formed_error P browser s st0 st1 r m);
      [apply Hwf|..].
  - destruct (executePlan_init_failure P browser p e Hinit)
      as (st' & Hexec & _).
    exists [browser_init e], st'. split; [done|].
    intros r m Hr. apply elem_of_cons in Hr as [->|Hr];
      [|by apply elem_of_nil in Hr]. simpl. intros [= <-].
    do 2 right. unfold init_throws in Hinit.
    destruct Hinit as [?|[[_ ?]|(_ & _ & ?)]]; eauto.
Qed.

(** The valid multi-step plan of the test suite, in an obliging
    browser. *)
Lemma validated_plan_avoids_defensive_branches_witness :
  ∃ p, plan (validateActionPlan raw_valid_plan AVAILABLE_TOOLS) = Some p ∧
       length (steps p) = 4 ∧
       Forall (λ s, well_formed s ∧ ¬ takes_defensive_branch s) (steps p) ∧
       browser_errors_foreign (obliging "ok") ∧
       ∃ rs st',
         executePlan linux (obliging "ok") p initial = (Normal rs, st') ∧
         ∀ r, r ∈ rs → ExecutionResult.error r ≠ Some url_required.
Proof.
  eexists. split; [reflexivity|]. split; [reflexivity|].
  destruct (validated_plan_avoids_defensive_branches raw_valid_plan
              AVAILABLE_TOOLS _ eq_refl) as [Hsteps Hrun].
  split; [exact Hsteps|].
  assert (Hforeign : browser_errors_foreign (obliging "ok"))
    by (intros h c e; discriminate).
  split; [exact Hforeign|].
  destruct (Hrun linux (obliging "ok")) as (rs & st' & Hexec & _ & Hres).
  exists rs, st'. split; [exact Hexec|].
  intros r Hr. by destruct (Hres Hforeign r Hr).
Defined.

(** * Further properties of the validator *)

Section ValidatorMore.

Lemma filter_nil_Forall {A} (f : A → bool) (l : list A) :
  List.filter (λ x, negb (f x)) l = [] ↔ Forall (λ x, f x = true) l.
Proof.
  induction l as [|x l IH]; simpl; [by split; [constructor|]|].
  destruct (f x) eqn:E; simpl.
  - rewrite IH. split; [by constructor | by inversion 1].
  - split; [done | inversion 1; congruence].
Qed.

Lemma validateStep_nil_iff (e : JsValue) (i : nat) (tools : list string) :
  validateStep e i tools = [] ↔ acceptable tools e.
Proof.
  split.
  - unfold validateStep.
    destruct (negb (typeof_object e) || is_null e); [done|].
    destruct (get "action" e) as [| | | |a| |] eqn:Ha; try done.
    unfold tool_enabled. case_bool_decide as Hin; simpl; [|done].
    intros Hfields. exists a. split; [done|]. split; [done|].
    destruct (decide (a ∈ AVAILABLE_TOOLS)) as [Hs|Hs];
      [|by rewrite (validateFields_default e i a Hs) in Hfields].
    split; [done|].
    rewrite (validateFields_table e i a Hs) in Hfields.
    apply map_eq_nil in Hfields. by apply filter_nil_Forall.
  - intros (a & Ha & Hin & Hs & Hfields).
    rewrite (validateStep_action e i tools a Ha). unfold tool_enabled.
    rewrite bool_decide_eq_true_2 by done. simpl.
    rewrite (validateFields_table e i a Hs).
    apply filter_nil_Forall in Hfields. by rewrite Hfields.
Qed.

Lemma validateSteps_nil_iff (elems : list JsValue) (i : nat)
    (tools : list string) :
  validateSteps elems i tools = [] ↔ Forall (acceptable tools) elems.
Proof.
  revert i. induction elems as [|e rest IH]; intros i; simpl.
  - split; [constructor | done].
  - split.
    + intros H. apply app_eq_nil in H as [He Hrest]. constructor.
      * by apply (validateStep_nil_iff e i).
      * by apply (IH (S i)).
    + inversion 1 as [|? ? He Hrest]; subst.
      apply (validateStep_nil_iff e i) in He. apply (IH (S i)) in Hrest.
      by rewrite He, Hrest.
Qed.

(** The number of errors of a step does not depend on its index. *)
Lemma validateStep_length (e : JsValue) (i j : nat) (tools : list string) :
  length (validateStep e i tools) = length (validateStep e j tools).
Proof.
  unfold validateStep, validateFields.
  repeat case_match; try done; rewrite ?length_app; repeat case_match; done.
Qed.

Lemma validateSteps_length (elems : list JsValue) (i j : nat)
    (tools : list string) :
  length (validateSteps elems i tools) = length (validateSteps elems j tools).
Proof.
  revert i j. induction elems as [|e rest IH]; intros i j; simpl; [done|].
  rewrite !length_app, (validateStep_length e i j), (IH (S i) (S j)). done.
Qed.

Lemma validateSteps_app (l1 l2 : list JsValue) (i : nat)
    (tools : list string) :
  validateSteps (l1 ++ l2) i tools
  = validateSteps l1 i tools ++ validateSteps l2 (i + length l1) tools.
Proof.
  revert i. induction l1 as [|e rest IH]; intros i; simpl.
  - by rewrite Nat.add_0_r.
  - rewrite IH, <- app_assoc. do 3 f_equal. lia.
Qed.

(** A step has at most two errors. *)
Lemma validateStep_at_most_two (e : JsValue) (i : nat)
    (tools : list string) :
  (length (validateStep e i tools) ≤ 2)%nat.
Proof.
  unfold validateStep, validateFields.
  repeat case_match; simpl; try lia; rewrite ?length_app;
    repeat case_match; simpl; lia.
Qed.

Lemma assoc_insert (k k' : string) (v : JsValue)
    (p1 p2 : list (string * JsValue)) :
  k' ≠ k → assoc k' (p1 ++ (k, v) :: p2) = assoc k' (p1 ++ p2).
Proof.
  intros Hne. induction p1 as [|[k0 v0] p1 IH]; simpl.
  - by rewrite decide_False.
  - by rewrite IH.
Qed.

(** The validator looks at a step through its six keys only. *)
Lemma validateStep_ext (s s' : JsValue) (i : nat) (tools : list string) :
  negb (typeof_object s) || is_null s = negb (typeof_object s') || is_null s' →
  (∀ k, k ∈ step_keys → get k s = get k s') →
  validateStep s i tools = validateStep s' i tools.
Proof.
  intros Hobj Hget. unfold validateStep, validateFields.
  rewrite Hobj.
  rewrite !(Hget "action"), !(Hget "url"), !(Hget "text"),
    !(Hget "selector"), !(Hget "value"), !(Hget "name");
    try done; unfold step_keys; rewrite !elem_of_cons; auto 10.
Qed.

(** An input is accepted exactly when its steps are an array of
    acceptable elements. *)
Lemma validateActionPlan_valid_iff (raw : JsValue) (tools : list string) :
  valid (validateActionPlan raw tools) = true ↔
  ∃ elems, get "steps" raw = JArray elems ∧ Forall (acceptable tools) elems.
Proof.
  split.
  - unfold validateActionPlan.
    destruct (negb (typeof_object raw) || is_null raw); [done|].
    destruct (get "steps" raw) as [| | | | |elems|]; try done.
    destruct (validateSteps elems 0 tools) as [|err errs] eqn:E; [|done].
    intros _. exists elems. split; [done|].
    by apply (validateSteps_nil_iff elems 0).
  - intros (elems & Hsteps & Hall).
    destruct (validateActionPlan_array raw tools elems Hsteps) as (_ & -> & _).
    apply (validateSteps_nil_iff elems 0) in Hall. by rewrite Hall.
Qed.

End ValidatorMore.

(** X1. [validateActionPlan] accepts an input exactly when its [steps]
    field is an array and every element is an object whose action is a
    string that is both on the allow-list and one of the eight schema
    kinds, with every field that kind requires present; a step has no
    error exactly under the same condition, at whatever index. *)
Theorem acceptance_characterised (raw : JsValue) (tools : list string) :
  (valid (validateActionPlan raw tools) = true ↔
   ∃ elems, get "steps" raw = JArray elems ∧ Forall (acceptable tools) elems) ∧
  (∀ e i, validateStep e i tools = [] ↔ acceptable tools e).
Proof.
  split; [apply validateActionPlan_valid_iff|].
  intros e i. apply validateStep_nil_iff.
Qed.

(** X2. Whatever the input, the three fields of the validation result
    agree: it is valid exactly when the error list is empty, and exactly
    when a plan is attached; an invalid result has at least one error. *)
Theorem validation_result_consistent (raw : JsValue) (tools : list string) :
  let r := validateActionPlan raw tools in
  (valid r = true ↔ errors r = []) ∧
  (valid r = true ↔ is_Some (plan r)) ∧
  (valid r = false ↔ 0 < length (errors r)).
Proof.
  unfold validateActionPlan.
  destruct (negb (typeof_object raw) || is_null raw);
    [|destruct (get "steps" raw);
      try destruct (validateSteps elems 0 tools) as [|err errs]];
    simpl; split_and!; split; intros H;
    first [ done | simpl in *; lia | by destruct H | by eexists ].
Qed.

(** X3. Enabling more tools never invalidates a plan: if an input is
    accepted under an allow-list, it is accepted, with the same result,
    under every allow-list that contains it. *)
Theorem allow_list_monotone (raw : JsValue) (tools tools' : list string) :
  (∀ a, a ∈ tools → a ∈ tools') →
  valid (validateActionPlan raw tools) = true →
  validateActionPlan raw tools' = validateActionPlan raw tools.
Proof.
  intros Hsub Hvalid.
  destruct (proj1 (validateActionPlan_valid_iff raw tools) Hvalid)
    as (elems & Hsteps & Hall).
  assert (Hall' : Forall (acceptable tools') elems).
  { eapply Forall_impl; [exact Hall|].
    intros e (a & Ha & Hin & Hs & Hf). exists a. auto. }
  apply (validateSteps_nil_iff elems 0) in Hall, Hall'.
  unfold validateActionPlan.
  rewrite (get_object_checks _ _ _ Hsteps) by done.
  by rewrite Hsteps, Hall, Hall'.
Qed.

(** A [goto] plan, accepted with [goto] alone enabled, and so with all
    tools. *)
Lemma allow_list_monotone_witness :
  let raw := steps_object [JObject [("action", JString "goto");
                                    ("url", JString "https://example.com")]] in
  (∀ a, a ∈ ["goto"] → a ∈ AVAILABLE_TOOLS) ∧
  valid (validateActionPlan raw ["goto"]) = true ∧
  validateActionPlan raw AVAILABLE_TOOLS = validateActionPlan raw ["goto"].
Proof.
  intros raw.
  assert (Hsub : ∀ a, a ∈ ["goto"] → a ∈ AVAILABLE_TOOLS).
  { intros a Ha. apply elem_of_cons in Ha as [->|Ha];
      [by left | by apply elem_of_nil in Ha]. }
  split; [exact Hsub|]. split; [reflexivity|].
  exact (allow_list_monotone raw ["goto"] AVAILABLE_TOOLS Hsub eq_refl).
Defined.

(** X4. Validation composes over concatenation: the steps [l1 ++ l2] are
    accepted exactly when [l1] and [l2] both are, and the number of
    errors of [l1 ++ l2] is the sum of the numbers of errors of [l1] and
    of [l2] (the position of a step changes the index its errors name,
    not how many they are). *)
Theorem validation_composes (l1 l2 : list JsValue) (tools : list string) :
  valid (validateActionPlan (steps_object (l1 ++ l2)) tools)
  = valid (validateActionPlan (steps_object l1) tools)
    && valid (validateActionPlan (steps_object l2) tools) ∧
  length (errors (validateActionPlan (steps_object (l1 ++ l2)) tools))
  = length (errors (validateActionPlan (steps_object l1) tools))
    + length (errors (validateActionPlan (steps_object l2) tools)).
Proof.
  destruct (validateActionPlan_array (steps_object (l1 ++ l2)) tools
              (l1 ++ l2) eq_refl) as (-> & -> & _).
  destruct (validateActionPlan_array (steps_object l1) tools l1 eq_refl)
    as (-> & -> & _).
  destruct (validateActionPlan_array (steps_object l2) tools l2 eq_refl)
    as (-> & -> & _).
  rewrite validateSteps_app. simpl.
  pose proof (validateSteps_length l2 (length l1) 0 tools) as Hlen.
  split.
  - destruct (validateSteps l1 0 tools) as [|e1 r1]; simpl; [|done].
    destruct (validateSteps l2 (length l1) tools) as [|e2 r2],
      (validateSteps l2 0 tools) as [|e3 r3]; simpl in *; done.
  - by rewrite length_app, Hlen.
Qed.

(** X5. Surplus fields are tolerated: adding to a step object, at any
    place of its property list, a property whose key is none of the six
    keys of a step changes neither the errors the validator reports for
    it nor the step the runner gets to see. *)
Theorem surplus_field_ignored (k : string) (v : JsValue)
    (p1 p2 : list (string * JsValue)) (i : nat) (tools : list string) :
  k ∉ step_keys →
  validateStep (JObject (p1 ++ (k, v) :: p2)) i tools
  = validateStep (JObject (p1 ++ p2)) i tools ∧
  asActionStep (JObject (p1 ++ (k, v) :: p2)) = asActionStep (JObject (p1 ++ p2)).
Proof.
  intros Hk.
  assert (Hget : ∀ k', k' ∈ step_keys →
            get k' (JObject (p1 ++ (k, v) :: p2)) = get k' (JObject (p1 ++ p2))).
  { intros k' Hk'. simpl. apply assoc_insert. intros ->. done. }
  split; [by apply validateStep_ext|].
  unfold asActionStep, string_field.
  rewrite !(Hget "action"), !(Hget "url"), !(Hget "text"),
    !(Hget "selector"), !(Hget "value"), !(Hget "name");
    try done; unfold step_keys; rewrite !elem_of_cons; auto 10.
Qed.

(** A [goto] step with a comment. *)
Lemma surplus_field_ignored_witness :
  ("comment" ∉ step_keys) ∧
  validateStep (JObject [("action", JString "goto");
                         ("comment", JNumber 7);
                         ("url", JString "https://example.com")])
    0 AVAILABLE_TOOLS = [].
Proof.
  assert (H : "comment" ∉ step_keys).
  { unfold step_keys. rewrite !not_elem_of_cons. repeat split; try done.
    apply not_elem_of_nil. }
  split; [exact H|].
  destruct (surplus_field_ignored "comment" (JNumber 7)
              [("action", JString "goto")]
              [("url", JString "https://example.com")] 0 AVAILABLE_TOOLS H)
    as [Hv _].
  simpl in Hv. rewrite Hv. reflexivity.
Defined.

(** X6. The validator reports at most two errors per step: for an input
    whose [steps] field is an array of [n] elements, at most [2 * n]
    errors are returned; and a step whose action is not on the allow-list
    contributes exactly one, whatever else is wrong with it. *)
Theorem errors_bounded (raw : JsValue) (tools : list string)
    (elems : list JsValue) :
  get "steps" raw = JArray elems →
  (length (errors (validateActionPlan raw tools)) ≤ 2 * length elems)%nat ∧
  (∀ e i a, get "action" e = JString a → a ∉ tools →
            length (validateStep e i tools) = 1).
Proof.
  intros Hsteps. split.
  - destruct (validateActionPlan_array raw tools elems Hsteps) as (-> & _).
    clear Hsteps.
    assert (Hbound : ∀ l i,
              (length (validateSteps l i tools) ≤ 2 * length l)%nat).
    { induction l as [|e rest IH]; intros i; simpl; [lia|].
      rewrite length_app. pose proof (validateStep_at_most_two e i tools).
      specialize (IH (S i)). lia. }
    apply Hbound.
  - intros e i a Ha Hout. rewrite (validateStep_action e i tools a Ha).
    unfold tool_enabled. by rewrite bool_decide_eq_false_2.
Qed.

(** A [type] step with neither selector nor value: two errors for one
    step. *)
Lemma errors_bounded_witness :
  let raw := steps_object [JObject [("action", JString "type")]] in
  get "steps" raw = JArray [JObject [("action", JString "type")]] ∧
  (length (errors (validateActionPlan raw AVAILABLE_TOOLS)) ≤ 2 * 1)%nat ∧
  length (errors (validateActionPlan raw AVAILABLE_TOOLS)) = 2.
Proof.
  intros raw. split; [reflexivity|].
  destruct (errors_bounded raw AVAILABLE_TOOLS
              [JObject [("action", JString "type")]] eq_refl) as [Hle _].
  split; [exact Hle | reflexivity].
Defined.

(** * Further properties of the runner *)

Section RunnerMore.
Context (P : Platform) (browser : Browser).

(** A result of [executeStep] is a success or a failure of its step. *)
Lemma executeStep_shape (step : ActionStep) (st st' : RunState)
    (r : ExecutionResult) :
  executeStep P browser step st = (Normal r, st') →
  (∃ d, r = succeeded step d) ∨ (∃ m, r = failed step m).
Proof.
  run_step.
  repeat case_decide; repeat (case_match; simplify_eq/=);
    intros; simplify_eq/=; eauto.
Qed.

Lemma shape_well_shaped (step : ActionStep) (r : ExecutionResult) :
  (∃ d, r = succeeded step d) ∨ (∃ m, r = failed step m) → well_shaped r.
Proof. by intros [[d ->] | [m ->]]; split; simpl. Qed.

(** [executePlan] returns, whatever the browser does. *)
Lemma executePlan_returns (plan : ActionPlan) :
  ∃ rs st', executePlan P browser plan initial = (Normal rs, st') ∧
    ((init_succeeds browser ∧
      ∃ st_b, attempts P browser session_open (attempted (steps plan)) rs st_b ∧
              st' = add_calls [BrowserClose] st_b) ∨
     (∃ e, init_throws browser e ∧ rs = [browser_init e])).
Proof.
  destruct (init_cases browser) as [Hinit | [e Hinit]].
  - destruct (executePlan_opened P browser plan Hinit)
      as (rs & st_b & _ & Hatt & Hexec & _).
    exists rs, (add_calls [BrowserClose] st_b). split; [done|]. left. eauto.
  - destruct (executePlan_init_failure P browser plan e Hinit)
      as (st' & Hexec & _).
    exists [browser_init e], st'. split; [done|]. right. eauto.
Qed.

(** [executeStep] makes at most one browser call, none of them on the
    session. *)
Lemma executeStep_one_call (step : ActionStep) (st : RunState) :
  ∃ r calls,
    executeStep P browser step st = (Normal r, add_calls calls st) ∧
    (length calls ≤ 1)%nat ∧ Forall (λ c, ¬ session_call c) calls.
Proof.
  run_step.
  repeat case_decide;
    repeat (case_match; simplify_eq/=).
  all: try (eexists _, []; rewrite add_calls_nil; split; [reflexivity|];
            split; [simpl; lia | constructor]).
  all: try (eexists _, [_]; split; [reflexivity|];
            split; [simpl; lia|];
            repeat constructor; unfold session_call; naive_solver).
Qed.

Lemma attempts_calls st l rs st' :
  attempts P browser st l rs st' →
  ∃ calls, trace st' = trace st ++ calls ∧
           (length calls ≤ length rs)%nat ∧
           Forall (λ c, ¬ session_call c) calls.
Proof.
  induction 1 as [st | st step r st1 l rs st' Hstep Hrest IH].
  - exists []. by rewrite app_nil_r.
  - destruct (executeStep_one_call step st) as (r' & calls & Hs & Hlen & Hc).
    rewrite Hstep in Hs. injection Hs as -> ->.
    destruct IH as (calls' & Htr & Hlen' & Hc'). simpl in *.
    exists (calls ++ calls'). split; [by rewrite Htr, app_assoc|].
    split; [rewrite length_app; lia | by apply Forall_app].
Qed.

(** Steps after a [closeBrowser] play no part in the loop. *)
Lemma runSteps_truncate (l1 l2 : list ActionStep) (c : ActionStep)
    (st : RunState) :
  action c = "closeBrowser" →
  runSteps P browser (l1 ++ c :: l2) st = runSteps P browser (l1 ++ [c]) st.
Proof.
  intros Hc. revert st. induction l1 as [|s l1 IH]; intros st; simpl.
  - by rewrite !decide_True.
  - case_decide; [done|].
    unfold mbind, M_bind, bind.
    destruct (executeStep P browser s st) as [[r|e] st1]; [|done].
    destruct (push r st1) as [[[]|e] st2]; [|done]. apply IH.
Qed.

End RunnerMore.

(** X7. Every result that [executePlan] returns is well shaped, whatever
    the plan and whatever the browser does (and [executePlan] does
    return): a result has an error message exactly when its success flag
    is false, and a failed result carries no data. *)
Theorem results_well_shaped (P : Platform) (browser : Browser)
    (plan : ActionPlan) :
  ∃ rs st',
    executePlan P browser plan initial = (Normal rs, st') ∧
    Forall well_shaped rs.
Proof.
  destruct (executePlan_returns P browser plan)
    as (rs & st' & Hexec & [(_ & st_b & Hatt & _) | (e & _ & ->)]).
  - exists rs, st'. split; [done|]. apply Forall_forall. intros r Hr.
    destruct (attempts_sources P browser _ _ _ _ Hatt r Hr)
      as (s & st0 & st1 & _ & Hstep).
    eapply shape_well_shaped, executeStep_shape. exact Hstep.
  - exists [browser_init e], st'. split; [done|].
    repeat constructor; done.
Qed.

(** X8. When the session opens, the browser calls of [executePlan] are
    the three opening calls, then the calls of the steps, then the close:
    there is at most one step call per result returned, and none of
    them opens or closes anything. *)
Theorem call_budget (P : Platform) (browser : Browser) (plan : ActionPlan) :
  init_succeeds browser →
  ∃ rs calls,
    executePlan P browser plan initial
    = (Normal rs,
       {| trace := [Launch; NewContext; NewPage] ++ calls ++ [BrowserClose];
          results := rs; browser_set := true |}) ∧
    (length calls ≤ length rs)%nat ∧
    (length rs ≤ length (steps plan))%nat ∧
    Forall (λ c, ¬ session_call c) calls.
Proof.
  intros Hinit.
  destruct (executePlan_opened P browser plan Hinit)
    as (rs & st_b & _ & Hatt & Hexec & Hres).
  destruct (attempts_calls P browser _ _ _ _ Hatt) as (calls & Htr & Hlen & Hc).
  destruct (attempts_facts P browser _ _ _ _ Hatt) as (Hall & _ & Hb & _).
  exists rs, calls. split; [|split; [done|split; [|done]]].
  - rewrite Hexec. destruct st_b as [t rs' b]. simpl in *. subst.
    reflexivity.
  - rewrite <- (Forall2_length _ _ _ Hall).
    clear. induction (steps plan) as [|s l IH]; simpl; [lia|].
    case_decide; simpl; lia.
Qed.

(** Three steps in an obliging browser. *)
Lemma call_budget_witness :
  init_succeeds (obliging "") ∧
  ∃ rs calls,
    executePlan linux (obliging "")
      {| steps := [step_goto "https://example.com"; step_screenshot "s";
                   step_closeBrowser] |} initial
    = (Normal rs,
       {| trace := [Launch; NewContext; NewPage] ++ calls ++ [BrowserClose];
          results := rs; browser_set := true |}) ∧
    (length calls ≤ length rs)%nat.
Proof.
  assert (Hinit : init_succeeds (obliging "")).
  { repeat split; by exists "". }
  split; [exact Hinit|].
  destruct (call_budget linux (obliging "")
              {| steps := [step_goto "https://example.com";
                           step_screenshot "s"; step_closeBrowser] |} Hinit)
    as (rs & calls & Hexec & Hlen & _).
  exists rs, calls. split; [exact Hexec | exact Hlen].
Defined.

(** X9. When the launch itself throws, the browser is never closed (there
    is none to close): the launch is the only call, and the single
    result reports the failure. *)
Theorem launch_failure_never_closes (P : Platform) (browser : Browser)
    (plan : ActionPlan) (e : Thrown) :
  browser [] Launch = Throw e →
  executePlan P browser plan initial
  = (Normal [browser_init e],
     {| trace := [Launch]; results := [browser_init e];
        browser_set := false |}).
Proof. intros Hl. run_plan. by rewrite Hl. Qed.

Lemma launch_failure_never_closes_witness :
  unlaunchable "no chromium" [] Launch = Throw (ErrorInstance "no chromium") ∧
  executePlan linux (unlaunchable "no chromium")
    {| steps := [step_closeBrowser] |} initial
  = (Normal [browser_init (ErrorInstance "no chromium")],
     {| trace := [Launch];
        results := [browser_init (ErrorInstance "no chromium")];
        browser_set := false |}).
Proof.
  split; [reflexivity|].
  exact (launch_failure_never_closes linux (unlaunchable "no chromium")
           {| steps := [step_closeBrowser] |} (ErrorInstance "no chromium")
           eq_refl).
Defined.

(** X10. Whatever follows the first [closeBrowser] of a plan is dead:
    dropping it changes neither the results nor the browser calls of
    [executePlan]. *)
Theorem steps_after_closeBrowser_are_dead (P : Platform) (browser : Browser)
    (l1 l2 : list ActionStep) (c : ActionStep) :
  action c = "closeBrowser" →
  executePlan P browser {| steps := l1 ++ c :: l2 |} initial
  = executePlan P browser {| steps := l1 ++ [c] |} initial.
Proof.
  intros Hc. run_plan.
  destruct (browser [] Launch); simpl; [|done].
  destruct (browser [Launch] NewContext); simpl; [|done].
  destruct (browser [Launch; NewContext] NewPage); simpl; [|done].
  by rewrite (runSteps_truncate P browser l1 l2 c _ Hc).
Qed.

Lemma steps_after_closeBrowser_are_dead_witness :
  action step_closeBrowser = "closeBrowser" ∧
  executePlan linux (obliging "")
    {| steps := [step_goto "https://example.com"; step_closeBrowser;
                 step_screenshot "late"] |} initial
  = executePlan linux (obliging "")
      {| steps := [step_goto "https://example.com"; step_closeBrowser] |}
      initial.
Proof.
  split; [reflexivity|].
  exact (steps_after_closeBrowser_are_dead linux (obliging "")
           [step_goto "https://example.com"] [step_screenshot "late"]
           step_closeBrowser eq_refl).
Defined.

(** X11. A [goto] whose url parses to [http:] or [https:] is handed to
    the browser as it stands: [executeStep] makes the one call
    [page.goto] with the url string of the step (not a normalised form of
    it); the result is a success without data when that call returns,
    and a failure carrying the thrown message when it throws. *)
Theorem allowed_goto_navigates (P : Platform) (browser : Browser)
    (step : ActionStep) (u proto : string) (st : RunState) :
  action step = "goto" → url step = Some u → u ≠ "" →
  URL_protocol P u = Normal proto →
  proto = "http:" ∨ proto = "https:" →
  executeStep P browser step st
  = (match browser (trace st) (PageGoto u) with
     | Normal _ => Normal (succeeded step None)
     | Throw e => Normal (failed step (err_text e))
     end, add_calls [PageGoto u] st).
Proof.
  intros Ha Hu Hne Hproto Hallowed.
  rewrite (executeStep_goto P browser step u st Ha Hu).
  rewrite decide_False by done. rewrite Hproto.
  by destruct Hallowed as [-> | ->].
Qed.

Lemma allowed_goto_navigates_witness :
  action (step_goto "https://example.com") = "goto" ∧
  url (step_goto "https://example.com") = Some "https://example.com" ∧
  "https://example.com" ≠ "" ∧
  URL_protocol linux "https://example.com" = Normal "https:" ∧
  executeStep linux (obliging "") (step_goto "https://example.com") initial
  = (Normal (succeeded (step_goto "https://example.com") None),
     add_calls [PageGoto "https://example.com"] initial).
Proof.
  split; [reflexivity|]. split; [reflexivity|]. split; [discriminate|].
  split; [reflexivity|].
  rewrite (allowed_goto_navigates linux (obliging "")
             (step_goto "https://example.com") "https://example.com" "https:"
             initial eq_refl eq_refl);
    [reflexivity | discriminate | reflexivity | by right].
Defined.

(** X12. Only the three reading kinds ever carry data: if a result of
    [executeStep] has data, it is a success of an [extractText] or a
    [snapshotText] step and the data is the very text the browser
    returned for the step's call, or it is a success of a [screenshot]
    step and the data is its screenshot path. *)
Theorem data_comes_from_reading_steps (P : Platform) (browser : Browser)
    (step : ActionStep) (st st' : RunState) (r : ExecutionResult)
    (d : string) :
  executeStep P browser step st = (Normal r, st') →
  ExecutionResult.data r = Some d →
  ExecutionResult.success r = true ∧
  ((action step = "extractText" ∧
    browser (trace st) (FirstInnerText (selector step)) = Normal d) ∨
   (action step = "snapshotText" ∧
    browser (trace st) BodyInnerText = Normal d) ∨
   (action step = "screenshot" ∧
    ∃ n, name step = Some n ∧ d = screenshot_path P n)).
Proof.
  unfold screenshot_path. run_step.
  repeat case_decide; repeat (case_match; simplify_eq/=);
    intros; simplify_eq/=; split; try done; eauto 10.
Qed.

(** A page whose text is [Hello]. *)
Lemma data_comes_from_reading_steps_witness :
  let step := {| action := "snapshotText"; url := None; text := None;
                 selector := None; value := None; name := None |} in
  executeStep linux (obliging "Hello") step initial
  = (Normal (succeeded step (Some "Hello")), add_calls [BodyInnerText] initial) ∧
  obliging "Hello" [] BodyInnerText = Normal "Hello".
Proof.
  intros step. split; [reflexivity|].
  destruct (data_comes_from_reading_steps linux (obliging "Hello") step
              initial (add_calls [BodyInnerText] initial)
              (succeeded step (Some "Hello")) "Hello" eq_refl eq_refl)
    as [_ [[Ha _] | [[_ Hb] | [Ha _]]]]; [discriminate | exact Hb | discriminate].
Defined.

(** X13. Sanitising a screenshot name changes nothing in a name that is
    already made of the allowed characters, and sanitising twice is
    sanitising once. *)
Theorem sanitising_is_idempotent (s : string) :
  (all_chars safe_char s = true → replace_unsafe s = s) ∧
  replace_unsafe (replace_unsafe s) = replace_unsafe s.
Proof.
  assert (Hfix : ∀ t, all_chars safe_char t = true → replace_unsafe t = t).
  { induction t as [|c t IH]; simpl; [done|].
    intros H. apply andb_prop in H as [Hc Ht]. by rewrite Hc, IH. }
  split; [apply Hfix|]. apply Hfix, replace_unsafe_safe.
Qed.

Lemma sanitising_is_idempotent_witness :
  all_chars safe_char "about-page_2.final" = true ∧
  replace_unsafe "about-page_2.final" = "about-page_2.final".
Proof.
  split; [reflexivity|].
  by apply (sanitising_is_idempotent "about-page_2.final").
Defined.

(** X14. A step that takes a defensive branch never reaches the browser:
    for a [goto] without url, and for an action that is none of the
    eight kinds, [executeStep] returns a failed result (that the url is
    required, or that the action is unknown, with its name) and makes no
    browser call; and so does a [screenshot] without a name, whose error
    is what [path.basename] throws. *)
Theorem defensive_branches_touch_nothing (P : Platform) (browser : Browser)
    (step : ActionStep) (st : RunState) :
  (takes_defensive_branch step →
   ∃ m, executeStep P browser step st = (Normal (failed step m), st) ∧
        (m = url_required ∨ m = unknown_action (action step))) ∧
  (action step = "screenshot" → name step = None →
   executeStep P browser step st
   = (Normal (failed step (err_text (path_basename_undefined P))), st)).
Proof.
  split.
  - intros [[Ha Hurl] | Hout].
    + exists url_required. split; [|by left]. run_step. by rewrite Ha, Hurl.
    + exists (unknown_action (action step)). split; [|by right].
      unfold AVAILABLE_TOOLS in Hout. rewrite !not_elem_of_cons in Hout.
      destruct_and?. run_step. by repeat (case_decide; try done).
  - intros Ha Hn. run_step. by rewrite Ha, Hn.
Qed.

(** A step that bypassed validation. *)
Lemma defensive_branches_touch_nothing_witness :
  let step := {| action := "deleteEverything"; url := None; text := None;
                 selector := None; value := None; name := None |} in
  takes_defensive_branch step ∧
  ∃ m, executeStep linux (obliging "") step initial
       = (Normal (failed step m), initial) ∧
       (m = url_required ∨ m = unknown_action "deleteEverything").
Proof.
  intros step.
  assert (H : takes_defensive_branch step).
  { right. unfold AVAILABLE_TOOLS. simpl. rewrite !not_elem_of_cons.
    repeat split; try done. apply not_elem_of_nil. }
  split; [exact H|].
  destruct (defensive_branches_touch_nothing linux (obliging "") step initial)
    as [Hd _].
  exact (Hd H).
Defined.

(** * Properties of the chat provider *)

(** One step of a computation of the provider. *)
Ltac run_h :=
  unfold mbind, H_bind, h_bind, mret, H_ret, h_ret, h_read, remember, post;
  simpl.

Section GrowsBy.

Lemma grows_by_refl (st : Provider) : grows_by st st [] [].
Proof. unfold grows_by. by rewrite !app_nil_r. Qed.

Lemma grows_by_trans (st st1 st2 : Provider) h1 e1 h2 e2 :
  grows_by st st1 h1 e1 → grows_by st1 st2 h2 e2 →
  grows_by st st2 (h1 ++ h2) (e1 ++ e2).
Proof.
  intros (Hv & Ht & Hh & He) (Hv' & Ht' & Hh' & He'). unfold grows_by.
  rewrite Hv', Ht', Hh', He', Hv, Ht, Hh, He, !app_assoc. done.
Qed.

Lemma grows_by_entry (st : Provider) (e : ChatEntry) :
  grows_by st (with_entry e st) [e] [].
Proof. unfold grows_by. simpl. by rewrite app_nil_r. Qed.

Lemma grows_by_event (st : Provider) (ev : HostEvent) :
  grows_by st (record_event ev st) [] [ev].
Proof. unfold grows_by. simpl. by rewrite app_nil_r. Qed.

(** A provider is its four fields. *)
Lemma grows_by_inj (st st1 st2 : Provider) h e :
  grows_by st st1 h e → grows_by st st2 h e → st1 = st2.
Proof.
  intros (Hv & Ht & Hh & He) (Hv' & Ht' & Hh' & He').
  destruct st1, st2. simpl in *. congruence.
Qed.

End GrowsBy.

Section CallLLM.
Context (host : Host).

(** [_callLLM] touches nothing but the language model. *)
Lemma callLLM_grows (sp ut : string) (st : Provider) :
  ∃ evs, grows_by st (_callLLM host sp ut st).2 [] evs ∧ Forall lm_event evs.
Proof.
  unfold _callLLM, or_select, select, h_call, h_throw.
  unfold mbind, H_bind, h_bind, mret, H_ret, h_ret.
  destruct (lm_available host); simpl;
    [|exists []; split; [apply grows_by_refl | constructor]].
  repeat (case_match; simplify_eq/=);
    unfold grows_by; simpl; rewrite ?app_nil_r, <- ?app_assoc;
    eexists; (split; [split_and!; reflexivity|]);
    repeat constructor.
Qed.

End CallLLM.

Ltac run_llm :=
  unfold _callLLM, or_select, select, h_call, h_throw, record_event;
  unfold mbind, H_bind, h_bind, mret, H_ret, h_ret; simpl.

Ltac finish_llm :=
  cbv beta; unfold request_outcome, after_events, llm_content; simpl;
  rewrite <- ?app_assoc; simpl;
  by destruct (sendRequest _ _ _ _).

(** X15. [_callLLM] tries its four selectors in a fixed order (copilot
    gpt-4o, copilot gpt-4o-mini, any copilot model, any model), goes on
    to the next only when the one before returned no model, and sends
    its one request to the first model of the first selection that is
    not empty, with the system prompt and the user request as content.
    When all four return no model it throws, having sent no request;
    without [vscode.lm] it throws at once and asks the host nothing. *)
Theorem callLLM_selects_in_order (host : Host) (sp ut : string)
    (st : Provider) :
  let s1 := CopilotFamily "gpt-4o" in
  let s2 := CopilotFamily "gpt-4o-mini" in
  let request evs m := request_outcome host st evs m (llm_content sp ut) in
  (lm_available host = false →
   _callLLM host sp ut st = (Throw (ErrorInstance lm_missing_message), st)) ∧
  (lm_available host = true →
   ∀ r1, selectChatModels host (events st) s1 = Normal r1 →
   (∀ m ms, r1 = Some (m :: ms) →
      _callLLM host sp ut st = request [ModelsSelected s1] m) ∧
   (no_models r1 = true →
    ∀ r2, selectChatModels host (events st ++ [ModelsSelected s1]) s2
          = Normal r2 →
    (∀ m ms, r2 = Some (m :: ms) →
       _callLLM host sp ut st
       = request [ModelsSelected s1; ModelsSelected s2] m) ∧
    (no_models r2 = true →
     ∀ r3, selectChatModels host
             (events st ++ [ModelsSelected s1; ModelsSelected s2])
             CopilotVendor = Normal r3 →
     (∀ m ms, r3 = Some (m :: ms) →
        _callLLM host sp ut st
        = request [ModelsSelected s1; ModelsSelected s2;
                   ModelsSelected CopilotVendor] m) ∧
     (no_models r3 = true →
      ∀ r4, selectChatModels host
              (events st ++ [ModelsSelected s1; ModelsSelected s2;
                             ModelsSelected CopilotVendor])
              AnyModel = Normal r4 →
      (∀ m ms, r4 = Some (m :: ms) →
         _callLLM host sp ut st
         = request [ModelsSelected s1; ModelsSelected s2;
                    ModelsSelected CopilotVendor; ModelsSelected AnyModel] m) ∧
      (no_models r4 = true →
       _callLLM host sp ut st
       = (Throw (ErrorInstance no_models_message),
          after_events [ModelsSelected s1; ModelsSelected s2;
                        ModelsSelected CopilotVendor;
                        ModelsSelected AnyModel] st)))))).
Proof.
  intros s1 s2 request. subst request.
  split; intros Hlm; [run_llm; by rewrite Hlm|].
  intros r1 H1. split.
  { intros m ms ->. run_llm. rewrite Hlm. simpl. fold s1. rewrite H1. simpl.
    finish_llm. }
  intros N1 r2 H2. split.
  { intros m ms ->. run_llm. rewrite Hlm. simpl. fold s1 s2.
    rewrite H1. simpl. rewrite N1. simpl. rewrite H2. simpl. finish_llm. }
  intros N2 r3 H3. split.
  { intros m ms ->. run_llm. rewrite Hlm. simpl. fold s1 s2.
    rewrite H1. simpl. rewrite N1. simpl. rewrite H2. simpl. rewrite N2.
    simpl. rewrite <- ?app_assoc. simpl. rewrite H3. simpl. finish_llm. }
  intros N3 r4 H4. split.
  { intros m ms ->. run_llm. rewrite Hlm. simpl. fold s1 s2.
    rewrite H1. simpl. rewrite N1. simpl. rewrite H2. simpl. rewrite N2.
    simpl. rewrite <- ?app_assoc. simpl. rewrite H3. simpl. rewrite N3.
    simpl. rewrite <- ?app_assoc. simpl. rewrite H4. simpl. finish_llm. }
  intros N4. run_llm. rewrite Hlm. simpl. fold s1 s2.
  rewrite H1. simpl. rewrite N1. simpl. rewrite H2. simpl. rewrite N2.
  simpl. rewrite <- ?app_assoc. simpl. rewrite H3. simpl. rewrite N3.
  simpl. rewrite <- ?app_assoc. simpl. rewrite H4. simpl.
  unfold after_events.
  destruct r4 as [[|m ms]|]; try done; simpl; by rewrite <- ?app_assoc.
Qed.

Lemma callLLM_selects_in_order_witness :
  let host := scripted_host "  ok " (fun _ => Throw (ErrorInstance "bad")) in
  lm_available host = true ∧
  selectChatModels host (events fresh_provider) (CopilotFamily "gpt-4o")
  = Normal (Some ["model"]) ∧
  (_callLLM host "sys" "hi" fresh_provider).1 = Normal "ok".
Proof.
  intros host. split; [reflexivity|]. split; [reflexivity|].
  destruct (callLLM_selects_in_order host "sys" "hi" fresh_provider)
    as [_ H].
  destruct (H eq_refl _ eq_refl) as [H1 _].
  rewrite (H1 "model" [] eq_refl). reflexivity.
Defined.

(** X16. The description table of the prompt is in lock-step with the
    schema and the validator: it has the eight action kinds of
    [AVAILABLE_TOOLS], in the same order; the description of each kind
    starts with its name and the JSON shape with that action, and shows
    every field that the validator requires for the kind. *)
Theorem descriptions_cover_schema (host : Host) :
  descriptions.*1 = AVAILABLE_TOOLS ∧
  Forall (λ t,
    String.prefix (t +:+ ": { " +:+ q "action" +:+ ": " +:+ q t)
      (describe host t) = true ∧
    Forall (λ f, includes (describe host t)
                   (q f.1 +:+ ": " +:+ q "<string>") = true)
      (required_fields t))
    AVAILABLE_TOOLS.
Proof.
  split; [reflexivity|].
  unfold describe. repeat constructor; vm_compute; reflexivity.
Qed.

Section Submit.
Context (host : Host).

Lemma report_results_spec (rs : list ExecutionResult) (st : Provider) :
  ∃ st', report_results host rs st = (Normal tt, st') ∧
         grows_by st st' (map (result_entry host) rs)
           (map (λ r, Posted (executionResult r)) rs).
Proof.
  revert st. induction rs as [|r rs IH]; intros st; simpl.
  - exists st. split; [done | apply grows_by_refl].
  - unfold mbind, H_bind, h_bind, remember, post. simpl.
    destruct (IH (record_event (Posted (executionResult r))
                    (with_entry (result_entry host r) st)))
      as (st' & Hrun & Hg).
    exists st'. split; [exact Hrun|].
    change (grows_by st st' ([result_entry host r] ++ map (result_entry host) rs)
              ([Posted (executionResult r)]
                 ++ map (λ r, Posted (executionResult r)) rs)).
    eapply grows_by_trans; [|exact Hg].
    change (grows_by st
              (record_event (Posted (executionResult r))
                 (with_entry (result_entry host r) st))
              ([result_entry host r] ++ []) ([] ++ [Posted (executionResult r)])).
    eapply grows_by_trans; [apply grows_by_entry | apply grows_by_event].
Qed.

Lemma run_plan_spec (p : ActionPlan) (st : Provider) :
  ∃ rs rst,
    executePlan (platform host) (browser_for host (events st)) p initial
    = (Normal rs, rst) ∧
    run_plan_in_browser host p st
    = (Normal rs, record_event (PlanExecuted p (trace rst)) st).
Proof.
  destruct (executePlan_returns (platform host) (browser_for host (events st)) p)
    as (rs & rst & Hexec & _).
  exists rs, rst. split; [done|]. unfold run_plan_in_browser. by rewrite Hexec.
Qed.

End Submit.

Section Answer.
Context (host : Host).

Lemma grows_by_entry_event (st : Provider) (e : ChatEntry) (ev : HostEvent) :
  grows_by st (record_event ev (with_entry e st)) [e] [ev].
Proof. unfold grows_by. simpl. done. Qed.

(** The outcome of the [try] block of [_handleSubmit], path by path. *)
Lemma answer_cases (text : string) (st : Provider) :
  let tools := effective_tools (_enabledTools st) in
  let sp := prompt_of host st in
  ∃ c1 st1 e1,
    _callLLM host sp text st = (c1, st1) ∧
    grows_by st st1 [] e1 ∧ Forall lm_event e1 ∧
    match c1 with
    | Throw e => answer host text st = (Throw e, st1)
    | Normal response =>
        let '(parsed, isClarification) := parse_response host response in
        let V := validateActionPlan (default JUndefined parsed) tools in
        if isClarification then
          ∃ st', answer host text st = (Normal tt, st') ∧
                 grows_by st st' [llm_entry (display_text parsed response)]
                   (e1 ++ [Posted (llmMessage (display_text parsed response))])
        else
          match plan V, valid V with
          | Some p, true =>
              let evs_run :=
                e1 ++ [Posted (llmMessage (JString executing_message))] in
              ∃ rs rst c3 st3 st4 e3,
                executePlan (platform host)
                  (browser_for host (events st ++ evs_run)) p initial
                = (Normal rs, rst) ∧
                grows_by st st3
                  (llm_entry (JString executing_message)
                     :: map (result_entry host) rs)
                  (evs_run ++ PlanExecuted p (trace rst)
                     :: map (λ r, Posted (executionResult r)) rs) ∧
                _callLLM host sp (interpretation_prompt rs) st3 = (c3, st4) ∧
                grows_by st3 st4 [] e3 ∧ Forall lm_event e3 ∧
                match c3 with
                | Throw e => answer host text st = (Throw e, st4)
                | Normal interp =>
                    ∃ st', answer host text st = (Normal tt, st') ∧
                           grows_by st4 st' [llm_entry (JString interp)]
                             [Posted (llmMessage (JString interp))]
                end
          | _, _ =>
              ∃ st', answer host text st = (Normal tt, st') ∧
                     grows_by st st'
                       [llm_entry (JString (invalid_plan_message (errors V)))]
                       (e1 ++ [Posted (errorMessage
                                         (invalid_plan_message (errors V)))])
          end
    end.
Proof.
  intros tools sp.
  destruct (_callLLM host sp text st) as [c1 st1] eqn:Hcall.
  destruct (callLLM_grows host sp text st) as (e1 & Hg1 & Hlm1).
  rewrite Hcall in Hg1. simpl in Hg1.
  exists c1, st1, e1. split; [done|]. split; [done|]. split; [done|].
  unfold answer, _buildToolDescriptions. run_h.
  fold tools. unfold prompt_of in sp. fold tools in sp. fold sp.
  rewrite Hcall.
  destruct c1 as [response|e]; [|done].
  destruct (parse_response host response) as [parsed [|]] eqn:Hparse.
  { eexists. split; [reflexivity|].
    change (grows_by st
              (record_event (Posted (llmMessage (display_text parsed response)))
                 (with_entry (llm_entry (display_text parsed response)) st1))
              ([] ++ [llm_entry (display_text parsed response)])
              (e1 ++ [Posted (llmMessage (display_text parsed response))])).
    eapply grows_by_trans; [exact Hg1 | apply grows_by_entry_event]. }
  assert (Htools : _enabledTools st1 = _enabledTools st) by apply Hg1.
  rewrite Htools. fold tools.
  set (V := validateActionPlan (default JUndefined parsed) tools).
  assert (Hinvalid :
    ∃ st', (Normal (),
            record_event (Posted (errorMessage (invalid_plan_message (errors V))))
              (with_entry (llm_entry (JString (invalid_plan_message (errors V))))
                 st1)) = (Normal tt, st') ∧
           grows_by st st'
             [llm_entry (JString (invalid_plan_message (errors V)))]
             (e1 ++ [Posted (errorMessage (invalid_plan_message (errors V)))])).
  { eexists. split; [reflexivity|].
    change (grows_by st
              (record_event (Posted (errorMessage (invalid_plan_message (errors V))))
                 (with_entry (llm_entry (JString (invalid_plan_message (errors V))))
                    st1))
              ([] ++ [llm_entry (JString (invalid_plan_message (errors V)))])
              (e1 ++ [Posted (errorMessage (invalid_plan_message (errors V)))])).
    eapply grows_by_trans; [exact Hg1 | apply grows_by_entry_event]. }
  destruct (plan V) as [p|] eqn:Hplan; [|exact Hinvalid].
  destruct (valid V) eqn:Hvalid; simpl; [|exact Hinvalid].
  clear Hinvalid.
  set (st2 := record_event (Posted (llmMessage (JString executing_message)))
                (with_entry (llm_entry (JString executing_message)) st1)).
  assert (Hg2 : grows_by st st2 [llm_entry (JString executing_message)]
                  (e1 ++ [Posted (llmMessage (JString executing_message))])).
  { change (grows_by st st2 ([] ++ [llm_entry (JString executing_message)])
              (e1 ++ [Posted (llmMessage (JString executing_message))])).
    eapply grows_by_trans; [exact Hg1 | apply grows_by_entry_event]. }
  destruct (run_plan_spec host p st2) as (rs & rst & Hexec & Hrun).
  match goal with
  | |- context [run_plan_in_browser host p ?s] => change s with st2
  end.
  rewrite Hrun.
  assert (Hev2 : events st2
                 = events st ++ e1
                     ++ [Posted (llmMessage (JString executing_message))])
    by apply Hg2.
  rewrite Hev2 in Hexec.
  destruct (report_results_spec host rs
              (record_event (PlanExecuted p (trace rst)) st2))
    as (st3 & Hrep & Hg3).
  match goal with
  | |- context [report_results host rs ?s] =>
      change s with (record_event (PlanExecuted p (trace rst)) st2)
  end.
  rewrite Hrep.
  assert (Hg3' : grows_by st st3
                   (llm_entry (JString executing_message)
                      :: map (result_entry host) rs)
                   ((e1 ++ [Posted (llmMessage (JString executing_message))])
                      ++ PlanExecuted p (trace rst)
                      :: map (λ r, Posted (executionResult r)) rs)).
  { change (grows_by st st3
              ([llm_entry (JString executing_message)]
                 ++ ([] ++ map (result_entry host) rs))
              ((e1 ++ [Posted (llmMessage (JString executing_message))])
                 ++ ([PlanExecuted p (trace rst)]
                       ++ map (λ r, Posted (executionResult r)) rs))).
    eapply grows_by_trans; [exact Hg2|].
    eapply grows_by_trans; [apply grows_by_event | exact Hg3]. }
  destruct (_callLLM host sp (interpretation_prompt rs) st3)
    as [c3 st4] eqn:Hcall3.
  destruct (callLLM_grows host sp (interpretation_prompt rs) st3)
    as (e3 & Hg4 & Hlm3).
  rewrite Hcall3 in Hg4. simpl in Hg4.
  exists rs, rst, c3, st3, st4, e3.
  split; [exact Hexec|]. split; [exact Hg3'|]. split; [done|].
  split; [exact Hg4|]. split; [exact Hlm3|].
  destruct c3 as [interp|e]; [|done].
  eexists. split; [reflexivity|]. apply grows_by_entry_event.
Qed.

End Answer.

Section HandleSubmit.
Context (host : Host).

Lemma omap_lm_events (evs : list HostEvent) :
  Forall lm_event evs →
  omap executed_plan evs = [] ∧ omap posted_result evs = [].
Proof.
  induction 1 as [|ev evs Hev _ [IH1 IH2]]; [done|].
  destruct ev; try done; simpl; split; assumption.
Qed.

Lemma omap_posted_results (rs : list ExecutionResult) :
  omap posted_result (map (λ r, Posted (executionResult r)) rs) = rs ∧
  omap executed_plan (map (λ r, Posted (executionResult r)) rs) = [].
Proof.
  induction rs as [|r rs [IH1 IH2]]; [done|].
  split; simpl; [f_equal; exact IH1 | exact IH2].
Qed.

Lemma omap_result_entries (rs : list ExecutionResult) :
  omap ChatEntry.result (map (result_entry host) rs) = rs.
Proof. induction rs as [|r rs IH]; [done|]. simpl. f_equal. exact IH. Qed.

Lemma handleSubmit_unfold (text : string) (st : Provider) :
  _handleSubmit host text st
  = if _view st then
      h_try_catch (answer host text)
        (fun err =>
           remember (llm_entry (JString ("Error: " +:+ err_text err)));;
           post_if_view (errorMessage (err_text err)))
        (after_user text st)
    else (Normal tt, st).
Proof.
  unfold _handleSubmit, h_read.
  unfold mbind at 1 2 3. unfold H_bind, h_bind. simpl.
  by destruct (_view st).
Qed.

(** The [catch] block of [_handleSubmit], in a provider with a view. *)
Lemma catch_spec (e : Thrown) (st : Provider) :
  _view st = true →
  (remember (llm_entry (JString ("Error: " +:+ err_text e)));;
   post_if_view (errorMessage (err_text e))) st
  = (Normal tt,
     record_event (Posted (errorMessage (err_text e)))
       (with_entry (llm_entry (JString ("Error: " +:+ err_text e))) st)).
Proof.
  intros Hv. unfold mbind, H_bind, h_bind, remember, post_if_view, post.
  simpl. unfold with_entry. by destruct (_view st).
Qed.

(** What [_handleSubmit] does, in full: it returns; without a view it
    does nothing; with one, it keeps and posts the user's text, then
    either runs no plan, or runs the one plan that validation attached
    to what [_callLLM] returned for the user's text, and reports its
    results. *)
Lemma handleSubmit_spec (text : string) (st : Provider) :
  ∃ st' hist evs,
    _handleSubmit host text st = (Normal tt, st') ∧
    grows_by st st' hist evs ∧
    if _view st then
      ∃ middle answer_text rest,
        hist = user_entry text :: middle ++ [llm_entry answer_text] ∧
        evs = Posted (userMessage text) :: rest ∧
        ((omap executed_plan rest = [] ∧ omap posted_result rest = [] ∧
          omap ChatEntry.result middle = []) ∨
         (∃ response st1 parsed p rs rst before,
            _callLLM host (prompt_of host st) text (after_user text st)
            = (Normal response, st1) ∧
            JSON_parse host response = Normal parsed ∧
            asks_clarification parsed = false ∧
            valid (validateActionPlan parsed
                     (effective_tools (_enabledTools st))) = true ∧
            plan (validateActionPlan parsed
                    (effective_tools (_enabledTools st))) = Some p ∧
            executePlan (platform host)
              (browser_for host (events st ++ before)) p initial
            = (Normal rs, rst) ∧
            omap executed_plan rest = [p] ∧
            omap posted_result rest = rs ∧
            omap ChatEntry.result middle = rs))
    else hist = [] ∧ evs = [].
Proof.
  rewrite handleSubmit_unfold.
  destruct (_view st) eqn:Hview;
    [|exists st, [], []; split; [done|]; split; [apply grows_by_refl | done]].
  assert (Hu : grows_by st (after_user text st) [user_entry text]
                 [Posted (userMessage text)])
    by apply grows_by_entry_event.
  destruct (answer_cases host text (after_user text st))
    as (c1 & st1 & e1 & Hcall & Hg1 & Hlm1 & Hcases).
  destruct (omap_lm_events e1 Hlm1) as [Hp1 Hr1].
  unfold h_try_catch.
  assert (Hcatch : ∀ e stx evx,
    grows_by (after_user text st) stx [] evx → Forall lm_event evx →
    ∃ st' hist evs,
      (remember (llm_entry (JString ("Error: " +:+ err_text e)));;
       post_if_view (errorMessage (err_text e))) stx = (Normal tt, st') ∧
      grows_by st st' hist evs ∧
      ∃ middle answer_text rest,
        hist = user_entry text :: middle ++ [llm_entry answer_text] ∧
        evs = Posted (userMessage text) :: rest ∧
        omap executed_plan rest = [] ∧ omap posted_result rest = [] ∧
        omap ChatEntry.result middle = []).
  { intros e stx evx Hgx Hlmx.
    destruct (omap_lm_events evx Hlmx) as [Hpx Hrx].
    assert (Hvx : _view stx = true) by (destruct Hgx as [-> _]; done).
    rewrite (catch_spec e stx Hvx).
    eexists _, ([user_entry text] ++ [] ++ [_]), ([_] ++ evx ++ [_]).
    split; [reflexivity|]. split.
    - eapply grows_by_trans; [exact Hu|].
      eapply grows_by_trans; [exact Hgx | apply grows_by_entry_event].
    - exists [], (JString ("Error: " +:+ err_text e)),
        (evx ++ [Posted (errorMessage (err_text e))]).
      split; [done|]. split; [done|].
      rewrite !omap_app, Hpx, Hrx. done. }
  destruct c1 as [response|e].
  2:{ rewrite Hcases.
      destruct (Hcatch e st1 e1 Hg1 Hlm1)
        as (st' & hist & evs & Hrun & Hg & middle & t & rest & ? & ?
            & ? & ? & ?).
      exists st', hist, evs. split; [done|]. split; [done|].
      exists middle, t, rest. auto 10. }
  destruct (parse_response host response) as [parsed isClar] eqn:Hparse.
  assert (Hparsed : isClar = false →
            ∃ v, parsed = Some v ∧ JSON_parse host response = Normal v ∧
                 asks_clarification v = false).
  { intros ->. unfold parse_response in Hparse.
    destruct (JSON_parse host response) as [v|]; [|done].
    injection Hparse as <- Hc. eauto. }
  destruct isClar.
  { destruct Hcases as (st' & Hrun & Hg). rewrite Hrun.
    eexists st', _, _. split; [done|]. split.
    - eapply grows_by_trans; [exact Hu | exact Hg].
    - exists [], (display_text parsed response),
        (e1 ++ [Posted (llmMessage (display_text parsed response))]).
      split; [done|]. split; [done|]. left.
      rewrite !omap_app, Hp1, Hr1. done. }
  destruct (Hparsed eq_refl) as (v & -> & Hjson & Hnoclar). simpl in Hcases.
  change (_enabledTools (after_user text st)) with (_enabledTools st) in Hcases.
  set (V := validateActionPlan v (effective_tools (_enabledTools st))) in *.
  assert (Hinvalid :
    (∃ st', answer host text (after_user text st) = (Normal tt, st') ∧
            grows_by (after_user text st) st'
              [llm_entry (JString (invalid_plan_message (errors V)))]
              (e1 ++ [Posted (errorMessage (invalid_plan_message (errors V)))])) →
    ∃ st' hist evs,
      match answer host text (after_user text st) with
      | (Normal a, st'0) => (Normal a, st'0)
      | (Throw e, st'0) =>
          (remember (llm_entry (JString ("Error: " +:+ err_text e)));;
           post_if_view (errorMessage (err_text e))) st'0
      end = (Normal tt, st') ∧
      grows_by st st' hist evs ∧
      ∃ middle answer_text rest,
        hist = user_entry text :: middle ++ [llm_entry answer_text] ∧
        evs = Posted (userMessage text) :: rest ∧
        ((omap executed_plan rest = [] ∧ omap posted_result rest = [] ∧
          omap ChatEntry.result middle = []) ∨
         (∃ response st1 parsed p rs rst before,
            _callLLM host (prompt_of host st) text (after_user text st)
            = (Normal response, st1) ∧
            JSON_parse host response = Normal parsed ∧
            asks_clarification parsed = false ∧
            valid (validateActionPlan parsed
                     (effective_tools (_enabledTools st))) = true ∧
            plan (validateActionPlan parsed
                    (effective_tools (_enabledTools st))) = Some p ∧
            executePlan (platform host)
              (browser_for host (events st ++ before)) p initial
            = (Normal rs, rst) ∧
            omap executed_plan rest = [p] ∧
            omap posted_result rest = rs ∧
            omap ChatEntry.result middle = rs))).
  { intros (st' & Hrun & Hg). rewrite Hrun.
    eexists st', _, _. split; [done|]. split.
    - eapply grows_by_trans; [exact Hu | exact Hg].
    - exists [], (JString (invalid_plan_message (errors V))),
        (e1 ++ [Posted (errorMessage (invalid_plan_message (errors V)))]).
      split; [done|]. split; [done|]. left.
      rewrite !omap_app, Hp1, Hr1. done. }
  destruct (plan V) as [p|] eqn:Hplan; [|by apply Hinvalid].
  destruct (valid V) eqn:Hvalid; [|by apply Hinvalid].
  clear Hinvalid.
  destruct Hcases as (rs & rst & c3 & st3 & st4 & e3 & Hexec & Hg3 & Hcall3
                      & Hg4 & Hlm3 & Hend).
  destruct (omap_lm_events e3 Hlm3) as [Hp3 Hr3].
  destruct (omap_posted_results rs) as [Hposted Hnoplan].
  assert (Hevu : events (after_user text st)
                 = events st ++ [Posted (userMessage text)]) by apply Hu.
  simpl in Hexec. rewrite <- app_assoc in Hexec.
  assert (Hrun_facts : ∀ tail,
    omap executed_plan tail = [] → omap posted_result tail = [] →
    omap executed_plan
      (((e1 ++ [Posted (llmMessage (JString executing_message))])
          ++ PlanExecuted p (trace rst)
          :: map (λ r, Posted (executionResult r)) rs) ++ tail) = [p] ∧
    omap posted_result
      (((e1 ++ [Posted (llmMessage (JString executing_message))])
          ++ PlanExecuted p (trace rst)
          :: map (λ r, Posted (executionResult r)) rs) ++ tail) = rs).
  { intros tail Ht1 Ht2. rewrite !omap_app.
    change (omap executed_plan
              (PlanExecuted p (trace rst)
                 :: map (λ r, Posted (executionResult r)) rs))
      with (p :: omap executed_plan
                   (map (λ r, Posted (executionResult r)) rs)).
    change (omap posted_result
              (PlanExecuted p (trace rst)
                 :: map (λ r, Posted (executionResult r)) rs))
      with (omap posted_result (map (λ r, Posted (executionResult r)) rs)).
    rewrite Hp1, Hr1, Hposted, Hnoplan, Ht1, Ht2. simpl.
    by rewrite ?app_nil_r. }
  destruct c3 as [interp|e].
  - destruct Hend as (st' & Hrun & Hg5). rewrite Hrun.
    eexists st', _, _. split; [done|]. split.
    + eapply grows_by_trans; [exact Hu|].
      eapply grows_by_trans; [exact Hg3|].
      eapply grows_by_trans; [exact Hg4 | exact Hg5].
    + eexists (llm_entry (JString executing_message)
                 :: map (result_entry host) rs),
        (JString interp), _.
      split; [reflexivity|].
      split; [reflexivity|]. right.
      destruct (Hrun_facts (e3 ++ [Posted (llmMessage (JString interp))]))
        as [Hq1 Hq2]; [by rewrite omap_app, Hp3 | by rewrite omap_app, Hr3|].
      eexists response, st1, v, p, rs, rst, _.
      split; [exact Hcall|].
      split; [done|]. split; [done|]. split; [done|]. split; [done|].
      split; [exact Hexec|]. split; [exact Hq1|]. split; [exact Hq2|].
      simpl. apply omap_result_entries.
  - rewrite Hend.
    assert (Hv4 : _view st4 = true).
    { destruct Hg4 as [-> _], Hg3 as [-> _]. done. }
    rewrite (catch_spec e st4 Hv4).
    eexists _, _, _. split; [reflexivity|]. split.
    + eapply grows_by_trans; [exact Hu|].
      eapply grows_by_trans; [exact Hg3|].
      eapply grows_by_trans; [exact Hg4 | apply grows_by_entry_event].
    + eexists (llm_entry (JString executing_message)
                 :: map (result_entry host) rs),
        (JString ("Error: " +:+ err_text e)), _.
      split; [reflexivity|].
      split; [reflexivity|]. right.
      destruct (Hrun_facts (e3 ++ [Posted (errorMessage (err_text e))]))
        as [Hq1 Hq2]; [by rewrite omap_app, Hp3 | by rewrite omap_app, Hr3|].
      eexists response, st1, v, p, rs, rst, _.
      split; [exact Hcall|].
      split; [done|]. split; [done|]. split; [done|]. split; [done|].
      split; [exact Hexec|]. split; [exact Hq1|]. split; [exact Hq2|].
      simpl. apply omap_result_entries.
Qed.

End HandleSubmit.

(** X17. [_handleSubmit] always returns, whatever the model, the parser
    and the browser do: every failure ends up as a message.  Without a
    view it changes nothing.  With a view it only adds to the history
    and to what was done: the first new entry is the user's text, which
    is also the first thing posted, and the last new entry is a message
    of role [llm] (an answer, a report of a rejected plan, or an
    error). *)
Theorem handleSubmit_always_answers (host : Host) (text : string)
    (st : Provider) :
  ∃ st' hist evs,
    _handleSubmit host text st = (Normal tt, st') ∧
    grows_by st st' hist evs ∧
    if _view st then
      ∃ middle answer_text rest,
        hist = user_entry text :: middle ++ [llm_entry answer_text] ∧
        evs = Posted (userMessage text) :: rest
    else st' = st.
Proof.
  destruct (handleSubmit_spec host text st)
    as (st' & hist & evs & Hrun & Hg & Hshape).
  exists st', hist, evs. split; [done|]. split; [done|].
  destruct (_view st).
  - destruct Hshape as (middle & t & rest & ? & ? & _). eauto 10.
  - destruct Hshape as [-> ->].
    by apply (grows_by_inj st st' st [] []); [|apply grows_by_refl].
Qed.

(** X18. [_handleSubmit] never runs a plan that validation did not
    accept: it executes at most one plan, and when it executes one,
    [_callLLM], called with the provider's system prompt and the user's
    text once that text was kept and posted, returned an answer that
    [JSON.parse] turned into a value that asks for no clarification and
    that [validateActionPlan] accepted, under the provider's effective
    allow-list, with that very plan attached; so every step that reaches
    the browser is well formed. *)
Theorem only_validated_plans_run (host : Host) (text : string)
    (st : Provider) :
  ∃ st' hist evs,
    _handleSubmit host text st = (Normal tt, st') ∧
    grows_by st st' hist evs ∧
    (omap executed_plan evs = [] ∨
     ∃ response st1 parsed p,
       omap executed_plan evs = [p] ∧
       _callLLM host (prompt_of host st) text (after_user text st)
       = (Normal response, st1) ∧
       JSON_parse host response = Normal parsed ∧
       asks_clarification parsed = false ∧
       valid (validateActionPlan parsed (effective_tools (_enabledTools st)))
       = true ∧
       plan (validateActionPlan parsed (effective_tools (_enabledTools st)))
       = Some p ∧
       Forall well_formed (steps p)).
Proof.
  destruct (handleSubmit_spec host text st)
    as (st' & hist & evs & Hrun & Hg & Hshape).
  exists st', hist, evs. split; [done|]. split; [done|].
  destruct (_view st); [|destruct Hshape as [_ ->]; by left].
  destruct Hshape as (middle & t & rest & _ & -> & Hcase).
  destruct Hcase as [(Hnone & _) |
    (response & st1 & parsed & p & rs & rst & before & Hcall & Hjson & Hclar
     & Hvalid & Hplan & _ & Hone & _)].
  - left. exact Hnone.
  - right. exists response, st1, parsed, p. split; [exact Hone|].
    split; [exact Hcall|]. split; [done|]. split; [done|]. split; [done|]. split; [done|].
    by apply (validated_plan_well_formed parsed
                (effective_tools (_enabledTools st))).
Qed.

(** X19. The execution results that [_handleSubmit] posts to the webview
    are, in order, the results it keeps in the history; and when a plan
    was executed, they are exactly the results that [executePlan]
    returned for it, in a browser started after the model's answer. *)
Theorem results_are_reported (host : Host) (text : string)
    (st : Provider) :
  ∃ st' hist evs,
    _handleSubmit host text st = (Normal tt, st') ∧
    grows_by st st' hist evs ∧
    omap posted_result evs = omap ChatEntry.result hist ∧
    Forall (λ p, ∃ before rs rst,
              executePlan (platform host)
                (browser_for host (events st ++ before)) p initial
              = (Normal rs, rst) ∧
              omap posted_result evs = rs)
      (omap executed_plan evs).
Proof.
  destruct (handleSubmit_spec host text st)
    as (st' & hist & evs & Hrun & Hg & Hshape).
  exists st', hist, evs. split; [done|]. split; [done|].
  destruct (_view st); [|destruct Hshape as [-> ->]; split; [done|constructor]].
  destruct Hshape as (middle & t & rest & -> & -> & Hcase).
  change (user_entry text :: middle ++ [llm_entry t])
    with ([user_entry text] ++ middle ++ [llm_entry t]).
  rewrite !omap_app.
  change (omap ChatEntry.result [user_entry text]) with (@nil ExecutionResult).
  change (omap ChatEntry.result [llm_entry t]) with (@nil ExecutionResult).
  change (omap posted_result (Posted (userMessage text) :: rest))
    with (omap posted_result rest).
  change (omap executed_plan (Posted (userMessage text) :: rest))
    with (omap executed_plan rest).
  rewrite app_nil_r. simpl.
  destruct Hcase as [(Hnone & Hnop & Hnor) |
    (response & st1 & parsed & p & rs & rst & before & _ & _ & _ & _ & _
     & Hexec
     & Hone & Hposted & Hkept)].
  - rewrite Hnone, Hnop, Hnor. split; [done | constructor].
  - rewrite Hone, Hposted, Hkept. split; [done|].
    constructor; [|constructor]. eauto.
Qed.

(** X20. What the model answers is shown, not run, in two cases.  If
    the answer is not JSON, the answer itself is kept and posted as the
    model's message.  If it is a JSON object with a [clarification]
    property, the value of that property is kept and posted, even when
    the object also carries [steps].  In both cases nothing else happens
    after the model's answer: no validation error, no browser. *)
Theorem model_message_is_shown (host : Host) (text response : string)
    (st st1 : Provider) :
  _view st = true →
  _callLLM host (prompt_of host st) text (after_user text st)
  = (Normal response, st1) →
  (∀ e, JSON_parse host response = Throw e →
        _handleSubmit host text st = (Normal tt, shown (JString response) st1)) ∧
  (∀ v, JSON_parse host response = Normal v → asks_clarification v = true →
        _handleSubmit host text st
        = (Normal tt, shown (get "clarification" v) st1)).
Proof.
  intros Hview Hcall. rewrite handleSubmit_unfold, Hview.
  unfold h_try_catch, answer, _buildToolDescriptions. run_h.
  unfold prompt_of in Hcall. rewrite Hcall.
  unfold parse_response, display_text, asks_clarification.
  split.
  - intros e ->. reflexivity.
  - intros v -> Hclar. rewrite Hclar. reflexivity.
Qed.

(** A model that asks back, with steps attached all the same. *)
Lemma model_message_is_shown_witness :
  let v := JObject [("clarification", JString "Which site?");
                    ("steps", JArray [JObject [("action", JString "closeBrowser")]])] in
  let host := scripted_host "ask" (fun _ => Normal v) in
  _view fresh_provider = true ∧
  asks_clarification v = true ∧
  ∃ st1,
    _callLLM host (prompt_of host fresh_provider) "go"
      (after_user "go" fresh_provider) = (Normal "ask", st1) ∧
    _handleSubmit host "go" fresh_provider
    = (Normal tt, shown (JString "Which site?") st1).
Proof.
  intros v host. split; [reflexivity|]. split; [reflexivity|].
  assert (Hcall : ∃ st1,
    _callLLM host (prompt_of host fresh_provider) "go"
      (after_user "go" fresh_provider) = (Normal "ask", st1)).
  { assert (H1 : (_callLLM host (prompt_of host fresh_provider) "go"
                    (after_user "go" fresh_provider)).1 = Normal "ask")
      by (vm_compute; reflexivity).
    destruct (_callLLM host _ _ _) as [c st1]. simpl in H1. subst c. eauto. }
  destruct Hcall as [st1 Hcall]. exists st1. split; [exact Hcall|].
  destruct (model_message_is_shown host "go" "ask" fresh_provider st1
              eq_refl Hcall) as [_ H].
  exact (H v eq_refl eq_refl).
Defined.

(** X21. When the model's answer is JSON that asks for no clarification
    and that validation rejects, [_handleSubmit] keeps and posts one
    error, which lists every validation error on a line of its own
    after the heading [Invalid action plan:], and does nothing else: no
    browser is started. *)
Theorem invalid_plan_is_reported (host : Host) (text response : string)
    (st st1 : Provider) (v : JsValue) :
  _view st = true →
  _callLLM host (prompt_of host st) text (after_user text st)
  = (Normal response, st1) →
  JSON_parse host response = Normal v →
  asks_clarification v = false →
  valid (validateActionPlan v (effective_tools (_enabledTools st))) = false →
  _handleSubmit host text st
  = (Normal tt,
     rejected
       ("Invalid action plan:" +:+ nl +:+
        join nl (errors (validateActionPlan v
                           (effective_tools (_enabledTools st)))))
       st1).
Proof.
  intros Hview Hcall Hjson Hclar Hvalid. rewrite handleSubmit_unfold, Hview.
  unfold h_try_catch, answer, _buildToolDescriptions. run_h.
  unfold prompt_of in Hcall. rewrite Hcall.
  unfold parse_response. rewrite Hjson.
  unfold asks_clarification in Hclar. rewrite Hclar.
  destruct (callLLM_grows host
              (system_prompt (join nl (map (describe host)
                 (effective_tools (_enabledTools st))))) text
              (after_user text st)) as (e1 & Hg1 & _).
  rewrite Hcall in Hg1. destruct Hg1 as (_ & Htools & _). simpl in Htools.
  rewrite Htools. simpl. rewrite Hvalid. simpl.
  by destruct (plan _).
Qed.

(** The model answers with a plan that has no [steps]. *)
Lemma invalid_plan_is_reported_witness :
  let host := scripted_host "{}" (fun _ => Normal (JObject [])) in
  _view fresh_provider = true ∧
  ∃ st1,
    _callLLM host (prompt_of host fresh_provider) "go"
      (after_user "go" fresh_provider) = (Normal "{}", st1) ∧
    _handleSubmit host "go" fresh_provider
    = (Normal tt,
       rejected ("Invalid action plan:" +:+ nl +:+ q "steps"
                   +:+ " must be an array") st1).
Proof.
  intros host. split; [reflexivity|].
  assert (Hcall : ∃ st1,
    _callLLM host (prompt_of host fresh_provider) "go"
      (after_user "go" fresh_provider) = (Normal "{}", st1)).
  { assert (H1 : (_callLLM host (prompt_of host fresh_provider) "go"
                    (after_user "go" fresh_provider)).1 = Normal "{}")
      by (vm_compute; reflexivity).
    destruct (_callLLM host _ _ _) as [c st1]. simpl in H1. subst c. eauto. }
  destruct Hcall as [st1 Hcall]. exists st1. split; [exact Hcall|].
  exact (invalid_plan_is_reported host "go" "{}" fresh_provider st1
           (JObject []) eq_refl Hcall eq_refl eq_refl eq_refl).
Defined.

Section Handlers.
Context (host : Host).

(** [_handleLoadFile] when the dialog gives no file. *)
Lemma handleLoadFile_none (st : Provider) (c : Completion (option (list string))) :
  showOpenDialog host (events st) = c →
  (∀ uri rest, c ≠ Normal (Some (uri :: rest))) →
  ∃ c', _handleLoadFile host st = (c', record_event OpenDialogShown st).
Proof.
  intros Hd Hnone. unfold _handleLoadFile, h_call.
  unfold mbind, H_bind, h_bind, mret, H_ret, h_ret. rewrite Hd.
  destruct c as [[[|uri rest]|]|e]; eauto. by destruct (Hnone uri rest).
Qed.

(** [_handleLoadFile] when the file cannot be read. *)
Lemma handleLoadFile_unreadable (st : Provider) (uri : string)
    (rest : list string) (e : Thrown) :
  showOpenDialog host (events st) = Normal (Some (uri :: rest)) →
  readFileSync host (events st ++ [OpenDialogShown]) uri = Throw e →
  _handleLoadFile host st
  = (Normal tt,
     after_events
       ([OpenDialogShown; FileRead uri] ++
        if _view st
        then [Posted (errorMessage ("Failed to load file: " +:+ err_text e))]
        else []) st).
Proof.
  intros Hd Hr.
  unfold _handleLoadFile, h_call, h_try_catch, post_if_view, post.
  unfold mbind, H_bind, h_bind. rewrite Hd. simpl. rewrite Hr. simpl.
  unfold after_events, record_event.
  destruct (_view st) eqn:Hview; simpl;
    rewrite ?Hview, <- ?app_assoc; reflexivity.
Qed.

(** [_handleLoadFile] once the file was read. *)
Lemma handleLoadFile_read (st : Provider) (uri : string)
    (rest : list string) (content : string) :
  showOpenDialog host (events st) = Normal (Some (uri :: rest)) →
  readFileSync host (events st ++ [OpenDialogShown]) uri = Normal content →
  _handleLoadFile host st
  = _handleSubmit host content
      (after_events
         ([OpenDialogShown; FileRead uri] ++
          if _view st then [Posted (loadedFile content)] else []) st).
Proof.
  intros Hdialog Hread.
  destruct (handleSubmit_spec host content
              (after_events
                 ([OpenDialogShown; FileRead uri] ++
                  if _view st then [Posted (loadedFile content)] else []) st))
    as (st' & hist & evs & Hrun & _).
  rewrite Hrun.
  unfold _handleLoadFile, h_call, h_try_catch, post_if_view, post.
  unfold mbind, H_bind, h_bind. rewrite Hdialog. simpl. rewrite Hread.
  simpl. unfold after_events, record_event in *.
  destruct (_view st) eqn:Hview; simpl in *;
    rewrite <- ?app_assoc; simpl; rewrite ?Hview in *;
    first [by rewrite Hrun | exact Hrun].
Qed.

(** [_handleExport] once a path is chosen. *)
Lemma handleExport_path (st : Provider) (path : string) :
  showSaveDialog host (events st) = Normal (Some path) →
  _handleExport host st
  = (Normal tt,
     after_events
       (SaveDialogShown ::
        match export_lines host (_chatHistory st) with
        | Normal lines =>
            [FileWritten path (join nl lines);
             match writeFileSync host (events st ++ [SaveDialogShown]) path
                     (join nl lines) with
             | Normal _ => InformationShown ("Results exported to " +:+ path)
             | Throw e => ErrorShown ("Export failed: " +:+ err_text e)
             end]
        | Throw e => [ErrorShown ("Export failed: " +:+ err_text e)]
        end) st).
Proof.
  intros Hd.
  unfold _handleExport, h_call, h_try_catch, h_read, h_lift.
  unfold mbind, H_bind, h_bind, mret, H_ret, h_ret. rewrite Hd.
  unfold after_events, record_event. cbn -[join export_lines].
  destruct (export_lines host (_chatHistory st)) as [lines|e];
    cbn -[join export_lines]; rewrite <- ?app_assoc; [|reflexivity].
  destruct (writeFileSync host (events st ++ [SaveDialogShown]) path
              (join nl lines));
    cbn -[join export_lines]; rewrite <- ?app_assoc; reflexivity.
Qed.

(** [_handleExport], whatever the dialog and the write do. *)
Lemma handleExport_grows (st : Provider) :
  ∃ c evs, _handleExport host st = (c, after_events evs st).
Proof.
  destruct (showSaveDialog host (events st)) as [[path|]|e] eqn:Hd.
  - rewrite (handleExport_path st path Hd). eauto.
  - unfold _handleExport, h_call. unfold mbind, H_bind, h_bind. rewrite Hd.
    by eexists _, [SaveDialogShown].
  - unfold _handleExport, h_call. unfold mbind, H_bind, h_bind. rewrite Hd.
    by eexists _, [SaveDialogShown].
Qed.



(** Every request leaves the view alone and only adds to the history and
    to what was done. *)
Lemma request_grows (message : ViewRequest) (st : Provider) :
  ∃ hist evs,
    _view (onDidReceiveMessage host message st).2 = _view st ∧
    _chatHistory (onDidReceiveMessage host message st).2
    = _chatHistory st ++ hist ∧
    events (onDidReceiveMessage host message st).2 = events st ++ evs ∧
    _enabledTools (onDidReceiveMessage host message st).2
    = match message with
      | updateTools tools => tools
      | _ => _enabledTools st
      end ∧
    match message with
    | submit _ | loadFile => True
    | exportResults => hist = []
    | updateTools _ =>
        hist = [] ∧ evs = [] ∧
        (onDidReceiveMessage host message st).1 = Normal tt
    | otherRequest _ =>
        hist = [] ∧ evs = [] ∧
        onDidReceiveMessage host message st = (Normal tt, st)
    end.
Proof.
  assert (Hsubmit : ∀ text evs0,
    ∃ hist evs,
      _view (_handleSubmit host text (after_events evs0 st)).2 = _view st ∧
      _chatHistory (_handleSubmit host text (after_events evs0 st)).2
      = _chatHistory st ++ hist ∧
      events (_handleSubmit host text (after_events evs0 st)).2
      = events st ++ evs ∧
      _enabledTools (_handleSubmit host text (after_events evs0 st)).2
      = _enabledTools st ∧ True).
  { intros text evs0.
    destruct (handleSubmit_spec host text (after_events evs0 st))
      as (st' & hist & evs & Hrun & (Hv & Ht & Hh & He) & _).
    rewrite Hrun. simpl in *. exists hist, (evs0 ++ evs).
    by rewrite Hv, Ht, Hh, He, app_assoc. }
  destruct message as [text| | |tools|type]; simpl.
  - destruct (Hsubmit text []) as (hist & evs & H).
    unfold after_events in H. rewrite app_nil_r in H.
    destruct st. simpl in *. eauto.
  - destruct (showOpenDialog host (events st)) as [[[|uri rest]|]|e] eqn:Hd.
    2:{ destruct (readFileSync host (events st ++ [OpenDialogShown]) uri)
          as [content|e] eqn:Hr.
        - rewrite (handleLoadFile_read st uri rest content Hd Hr).
          apply Hsubmit.
        - rewrite (handleLoadFile_unreadable st uri rest e Hd Hr). simpl.
          eexists [], _. by rewrite app_nil_r. }
    all: destruct (handleLoadFile_none st _ Hd) as [c' ->]; [done|];
      simpl; exists [], [OpenDialogShown]; by rewrite app_nil_r.
  - destruct (handleExport_grows st) as (c & evs & ->). simpl.
    exists [], evs. by rewrite app_nil_r.
  - exists [], []. by rewrite !app_nil_r.
  - exists [], []. by rewrite !app_nil_r.
Qed.

End Handlers.

(** X22. [_handleLoadFile] reads the first selected file only.  When the
    dialog is cancelled (nothing, or an empty selection, comes back) it
    does nothing.  When the file cannot be read it posts one error,
    [Failed to load file: ] and the message, and the history is left as
    it was.  When the file is read, its content is posted (if there is a
    view) and then handled exactly as a submitted text. *)
Theorem load_file_paths (host : Host) (st : Provider) :
  (∀ uris, showOpenDialog host (events st) = Normal uris →
     uris = None ∨ uris = Some [] →
     _handleLoadFile host st = (Normal tt, record_event OpenDialogShown st)) ∧
  (∀ uri rest e,
     showOpenDialog host (events st) = Normal (Some (uri :: rest)) →
     readFileSync host (events st ++ [OpenDialogShown]) uri = Throw e →
     _handleLoadFile host st
     = (Normal tt,
        after_events
          ([OpenDialogShown; FileRead uri] ++
           if _view st
           then [Posted (errorMessage ("Failed to load file: "
                                         +:+ err_text e))]
           else []) st)) ∧
  (∀ uri rest content,
     showOpenDialog host (events st) = Normal (Some (uri :: rest)) →
     readFileSync host (events st ++ [OpenDialogShown]) uri = Normal content →
     _handleLoadFile host st
     = _handleSubmit host content
         (after_events
            ([OpenDialogShown; FileRead uri] ++
             if _view st then [Posted (loadedFile content)] else []) st)).
Proof.
  split; [|split].
  - intros uris Hd Hnone.
    destruct (handleLoadFile_none host st _ Hd) as [c' Hrun];
      [by destruct Hnone as [-> | ->]|].
    rewrite Hrun. f_equal.
    unfold _handleLoadFile, h_call in Hrun.
    unfold mbind, H_bind, h_bind, mret, H_ret, h_ret in Hrun.
    rewrite Hd in Hrun. destruct Hnone as [-> | ->]; congruence.
  - apply handleLoadFile_unreadable.
  - apply handleLoadFile_read.
Qed.

(** A dialog that is cancelled. *)
Lemma load_file_paths_witness :
  let host := scripted_host "" (fun _ => Throw (ErrorInstance "bad")) in
  showOpenDialog host (events fresh_provider) = Normal None ∧
  _handleLoadFile host fresh_provider
  = (Normal tt, record_event OpenDialogShown fresh_provider).
Proof.
  intros host. split; [reflexivity|].
  destruct (load_file_paths host fresh_provider) as [H _].
  exact (H None eq_refl (or_introl eq_refl)).
Defined.



(** X24. Whatever request the webview sends, the provider keeps its
    view, and its history and the record of what it did only grow: no
    entry is ever dropped or rewritten.  The allow-list changes on
    [updateTools] only, where it becomes the list sent, and that is all
    [updateTools] does; only [submit] and [loadFile] add to the
    history; and a message of any other type does nothing at all: the
    listener returns and the provider is as it was, no host call
    made. *)
Theorem requests_only_add (host : Host) (message : ViewRequest)
    (st : Provider) :
  ∃ hist evs,
    _view (onDidReceiveMessage host message st).2 = _view st ∧
    _chatHistory (onDidReceiveMessage host message st).2
    = _chatHistory st ++ hist ∧
    events (onDidReceiveMessage host message st).2 = events st ++ evs ∧
    _enabledTools (onDidReceiveMessage host message st).2
    = match message with
      | updateTools tools => tools
      | _ => _enabledTools st
      end ∧
    match message with
    | submit _ | loadFile => True
    | exportResults => hist = []
    | updateTools _ =>
        hist = [] ∧ evs = [] ∧
        (onDidReceiveMessage host message st).1 = Normal tt
    | otherRequest _ =>
        hist = [] ∧ evs = [] ∧
        onDidReceiveMessage host message st = (Normal tt, st)
    end.
Proof. apply request_grows. Qed.

Section Nonce.

Lemma string_length_app (s t : string) :
  String.length (s +:+ t) = (String.length s + String.length t)%nat.
Proof. induction s as [|c s IH]; [done|]. rewrite app_cons. simpl. by rewrite IH. Qed.

(** A character of [possible], or nothing. *)
Lemma charAt_possible (k : nat) :
  all_chars is_alnum (charAt possible k) = true ∧
  String.length (charAt possible k)
  = (if bool_decide (k < String.length possible)%nat then 1 else 0)%nat.
Proof.
  do 62 (destruct k as [|k]; [by vm_compute|]).
  split; [done|].
  rewrite bool_decide_eq_false_2; [done|].
  change (String.length possible) with 62. lia.
Qed.

Lemma nonce_loop (draw : nat → nat) (l : list nat) (text : string) :
  let text' := foldl (λ text i, text +:+ charAt possible (draw i)) text l in
  all_chars is_alnum text' = all_chars is_alnum text ∧
  (String.length text' ≤ String.length text + length l)%nat ∧
  (Forall (λ i, (draw i < String.length possible)%nat) l →
   String.length text' = (String.length text + length l)%nat).
Proof.
  revert text. induction l as [|i l IH]; intros text; simpl.
  { split_and!; [done | lia | lia]. }
  destruct (IH (text +:+ charAt possible (draw i))) as (Ha & Hle & Heq).
  destruct (charAt_possible (draw i)) as [Hc Hlen].
  rewrite all_chars_app, Hc, andb_true_r in Ha.
  rewrite string_length_app, Hlen in Hle, Heq.
  split_and!; [done | case_bool_decide; lia |].
  intros [Hi Hl]%Forall_cons. rewrite (Heq Hl).
  rewrite bool_decide_eq_true_2; [lia | done].
Qed.

End Nonce.

(** X25. The nonce that [getNonce] returns is made of letters and digits
    only, whatever [Math.random] gives, and has at most 32 characters;
    it has exactly 32 when every index drawn falls inside [possible]. *)
Theorem nonce_is_alphanumeric (draw : nat → nat) :
  all_chars is_alnum (getNonce draw) = true ∧
  (String.length (getNonce draw) ≤ 32)%nat ∧
  ((∀ i, (i < 32)%nat → (draw i < String.length possible)%nat) →
   String.length (getNonce draw) = 32).
Proof.
  destruct (nonce_loop draw (seq 0 32) "") as (Ha & Hle & Heq).
  rewrite length_seq in Hle, Heq. split_and!; [exact Ha | exact Hle |].
  intros Hdraw. apply Heq. apply Forall_forall. intros i Hi.
  apply Hdraw. apply elem_of_seq in Hi. lia.
Qed.

Lemma nonce_is_alphanumeric_witness :
  (∀ i, (i < 32)%nat → (i + 30 < String.length possible)%nat) ∧
  getNonce (λ i, i + 30) = "efghijklmnopqrstuvwxyz0123456789" ∧
  String.length (getNonce (λ i, i + 30)) = 32.
Proof.
  assert (H : ∀ i, (i < 32)%nat → (i + 30 < String.length possible)%nat).
  { intros i Hi. change (String.length possible) with 62. lia. }
  split_and!; [exact H | by vm_compute |].
  destruct (nonce_is_alphanumeric (λ i, i + 30)) as (_ & _ & Hlen).
  exact (Hlen H).
Defined.
